(** * A local table store with sorted secondary indexes

    Shallow embedding of the table store of the Virality client
    ([localStorage.ts]): tables persisted in React Native's [AsyncStorage],
    auto-incremented ids, sorted secondary indexes and paginated listing.
    With it come its validation routine, the earlier revision of its index
    maintenance, the application state manager that is built on it
    ([localStore.ts]) and the location tracking that the manager subscribes
    to ([background/location.ts]).

    Conventions of the embedding:
    - a JavaScript number is an integer of [Z] (ids, offsets and counters are
      integers; the model agrees with IEEE doubles on the safe integers, the
      integers below 2^53 in magnitude): there is no [NaN], no infinity and
      no fraction, so the properties that let a caller choose the numbers
      ask for safe integers ([safeInteger]);
    - a string is a sequence of code units below 256;
    - [undefined] is the [None] of an [option];
    - an object used as a record of fields is a finite map ([gmap]); the
      [indexes] object, which the code walks with [for ... in], is an
      association list in property order;
    - a value held by [AsyncStorage] is the JSON document that
      [JSON.stringify] wrote; [JSON.parse] gives the document back. *)

From Stdlib Require Import ZArith Ascii String List Lia ZifyBool.
From Stdlib Require Import Sorting.Sorted Sorting.Permutation.
From Stdlib Require Import DecimalString DecimalZ.
From stdpp Require Import base option list gmap strings.

Local Open Scope Z_scope.

(** * The program *)

(** ** JavaScript values *)

Inductive JsValue : Type :=
  | JNull
  | JBool (b : bool)
  | JNum (n : Z)
  | JStr (s : string).

#[global] Instance JsValue_eq_dec : EqDecision JsValue.
Proof. solve_decision. Defined.

(** An item is a flat record; [item !! field] is [item[field]]. *)
Abbreviation Item := (gmap string JsValue).

(** ** Characters, digits and numeric strings *)

Definition code (c : ascii) : Z := Z.of_N (N_of_ascii c).

(** [StrWhiteSpaceChar] among the code units below 256: TAB, LF, VT, FF, CR,
    SP and NBSP. *)
Definition isWhiteSpace (c : ascii) : bool :=
  let n := code c in
  ((9 <=? n) && (n <=? 13)) || (n =? 32) || (n =? 160).

Definition digitValue (c : ascii) : option Z :=
  let n := code c in
  if (48 <=? n) && (n <=? 57) then Some (n - 48)
  else if (97 <=? n) && (n <=? 122) then Some (n - 87)
  else if (65 <=? n) && (n <=? 90) then Some (n - 55)
  else None.

Definition radixDigit (R : Z) (c : ascii) : option Z :=
  match digitValue c with
  | Some d => if d <? R then Some d else None
  | None => None
  end.

(** The longest prefix of radix-[R] digits, and what follows it. *)
Fixpoint spanDigits (R : Z) (s : string) : list Z * string :=
  match s with
  | String c s' =>
      match radixDigit R c with
      | Some d => let (ds, r) := spanDigits R s' in (d :: ds, r)
      | None => ([], s)
      end
  | EmptyString => ([], EmptyString)
  end.

Definition digitsValue (R : Z) (ds : list Z) : Z :=
  fold_left (fun acc d => acc * R + d) ds 0.

Fixpoint trimStart (s : string) : string :=
  match s with
  | String c s' => if isWhiteSpace c then trimStart s' else s
  | EmptyString => EmptyString
  end.

Fixpoint trimEnd (s : string) : string :=
  match s with
  | EmptyString => EmptyString
  | String c s' =>
      match trimEnd s' with
      | EmptyString => if isWhiteSpace c then EmptyString else String c EmptyString
      | t => String c t
      end
  end.

(** A leading sign, and what follows it. *)
Definition stripSign (s : string) : Z * string :=
  match s with
  | String c s' =>
      if code c =? 45 then (-1, s')
      else if code c =? 43 then (1, s')
      else (1, s)
  | EmptyString => (1, s)
  end.

(** The radix a leading [0x] or [0X] selects, and what follows it. *)
Definition stripPrefix (s : string) : Z * string :=
  match s with
  | String c (String x s') =>
      if (code c =? 48) && ((code x =? 120) || (code x =? 88))
      then (16, s') else (10, s)
  | _ => (10, s)
  end.

(** [parseInt(string)] with no radix argument; [None] is [NaN]. *)
Definition parseInt (input : string) : option Z :=
  let '(sign, s) := stripSign (trimStart input) in
  let '(R, s) := stripPrefix s in
  match spanDigits R s with
  | ([], _) => None
  | (ds, _) => Some (sign * digitsValue R ds)
  end.

(** A string that is digits of radix [R] throughout, and not empty. *)
Definition allDigits (R : Z) (s : string) : option Z :=
  match spanDigits R s with
  | (d :: ds, EmptyString) => Some (digitsValue R (d :: ds))
  | _ => None
  end.

(** [ExponentPart], when present; the empty rest counts as exponent 0. *)
Definition exponentPart (s : string) : option Z :=
  match s with
  | EmptyString => Some 0
  | String c s' =>
      if (code c =? 101) || (code c =? 69) then
        match s' with
        | String g r =>
            if code g =? 45 then Z.opp <$> allDigits 10 r
            else if code g =? 43 then allDigits 10 r
            else allDigits 10 s'
        | EmptyString => None
        end
      else None
  end.

(** [m * 10 ^ e] when that is an integer. *)
Definition scale (m e : Z) : option Z :=
  if 0 <=? e then Some (m * 10 ^ e)
  else if m mod 10 ^ (- e) =? 0 then Some (m / 10 ^ (- e))
  else None.

Definition StrUnsignedDecimalLiteral (s : string) : option Z :=
  if String.eqb s "Infinity" then None
  else
    let '(ip, r) := spanDigits 10 s in
    let '(fp, r) :=
      match r with
      | String c r' => if code c =? 46 then spanDigits 10 r' else ([], r)
      | EmptyString => ([], r)
      end in
    match ip ++ fp with
    | [] => None
    | ds =>
        match exponentPart r with
        | Some e => scale (digitsValue 10 ds) (e - Z.of_nat (length fp))
        | None => None
        end
    end.

Definition StrDecimalLiteral (s : string) : option Z :=
  match s with
  | String c s' =>
      if code c =? 45 then Z.opp <$> StrUnsignedDecimalLiteral s'
      else if code c =? 43 then StrUnsignedDecimalLiteral s'
      else StrUnsignedDecimalLiteral s
  | EmptyString => None
  end.

(** A decimal literal, or a binary, octal or hexadecimal integer literal. *)
Definition StrNumericLiteral (t : string) : option Z :=
  match t with
  | String c (String x r) =>
      if code c =? 48 then
        if (code x =? 120) || (code x =? 88) then allDigits 16 r
        else if (code x =? 111) || (code x =? 79) then allDigits 8 r
        else if (code x =? 98) || (code x =? 66) then allDigits 2 r
        else StrDecimalLiteral t
      else StrDecimalLiteral t
  | _ => StrDecimalLiteral t
  end.

(** [ToNumber] of a string, as far as the integers can tell: [Some n] when
    the string is a numeric literal of the integer value [n]; [None] when it
    is [NaN], infinite or not integral, which no integer equals. *)
Definition StringToNumber (input : string) : option Z :=
  match trimEnd (trimStart input) with
  | EmptyString => Some 0
  | t => StrNumericLiteral t
  end.

(** [Number.prototype.toString()] of an integer: its decimal digits, which
    is what JavaScript prints below 10^21 (an exponent from there on). *)
Definition Number_toString (n : Z) : string :=
  NilZero.string_of_int (Z.to_int n).

(** ** Conversions and comparisons of values *)

(** [ToString], as a template literal applies it. *)
Definition ToString (v : option JsValue) : string :=
  match v with
  | None => "undefined"
  | Some JNull => "null"
  | Some (JBool true) => "true"
  | Some (JBool false) => "false"
  | Some (JNum n) => Number_toString n
  | Some (JStr s) => s
  end.

(** [ToBoolean]: what [!v] and [v ? _ : _] test. *)
Definition truthy (v : option JsValue) : bool :=
  match v with
  | None | Some JNull => false
  | Some (JBool b) => b
  | Some (JNum n) => negb (n =? 0)
  | Some (JStr s) => negb (String.eqb s "")
  end.

Definition isNumber (v : option JsValue) : bool :=
  match v with Some (JNum _) => true | _ => false end.

(** [a === b]. *)
Definition strictEq (a b : option JsValue) : bool := bool_decide (a = b).

Definition numEq (a b : option Z) : bool :=
  match a, b with
  | Some x, Some y => x =? y
  | _, _ => false
  end.

(** [a == b]: values of one type compare strictly, [null] and [undefined]
    equal each other only, a string meets a number through [ToNumber], and a
    boolean is first turned into 0 or 1. The numbers are compared as
    integers, which is the comparison of the doubles on the safe
    integers. *)
Definition looseEq (a b : option JsValue) : bool :=
  match a, b with
  | None, None | None, Some JNull | Some JNull, None => true
  | None, Some _ | Some _, None => false
  | Some x, Some y =>
      match x, y with
      | JNull, JNull => true
      | JNull, _ | _, JNull => false
      | JBool p, JBool q => Bool.eqb p q
      | JNum n, JNum m => n =? m
      | JStr s, JStr t => String.eqb s t
      | JNum n, JStr s | JStr s, JNum n => numEq (StringToNumber s) (Some n)
      | JBool p, JNum n | JNum n, JBool p => Z.b2z p =? n
      | JBool p, JStr s | JStr s, JBool p =>
          numEq (StringToNumber s) (Some (Z.b2z p))
      end
  end.

(** ** The data model (the interfaces of [localStorage.ts]) *)

Record LocalIndexKey : Type := mkKey {
  key_id : option JsValue;      (* id *)
  key_value : option JsValue    (* value *)
}.

Record LocalIndexDef : Type := mkIndex {
  ascending : option bool;
  numerical : option bool;
  values : option (list LocalIndexKey)
}.

Record LocalTableDef : Type := mkTable {
  name : string;
  nextId : Z;
  indexes : list (string * LocalIndexDef)
}.

#[global] Instance LocalIndexKey_eq_dec : EqDecision LocalIndexKey.
Proof. solve_decision. Defined.
#[global] Instance LocalIndexDef_eq_dec : EqDecision LocalIndexDef.
Proof. solve_decision. Defined.
#[global] Instance LocalTableDef_eq_dec : EqDecision LocalTableDef.
Proof. solve_decision. Defined.

(** A stored JSON document: a table definition or an item. *)
Inductive Doc : Type :=
  | DTable (t : LocalTableDef)
  | DItem (i : Item).

Record StorageResults : Type := mkResults {
  items : list (option Doc);    (* [None] is the [null] of a missing key *)
  continuation : option string
}.

(** ** Errors and completions *)

Inductive Error : Type :=
  | MkError (message : string)   (* new Error(message) *)
  | TypeError.

Inductive Completion (A : Type) : Type :=
  | Return (a : A)
  | Throw (e : Error).
Arguments Return {A} a.
Arguments Throw {A} e.

#[global] Instance Completion_ret : MRet Completion := fun A a => Return a.
#[global] Instance Completion_bind : MBind Completion := fun A B f m =>
  match m with
  | Return a => f a
  | Throw e => Throw e
  end.

(** ** AsyncStorage *)

Inductive Call : Type :=
  | CGetItem (key : string)
  | CSetItem (key : string) (v : Doc)
  | CRemoveItem (key : string)
  | CMultiGet (keys : list string)
  | CMultiSet (rows : list (string * Doc))
  | CMultiRemove (keys : list string)
  | CGetAllKeys.

(** The persisted key/value pairs and the calls made so far, latest first. *)
Record Storage : Type := mkStorage {
  disk : gmap string Doc;
  calls : list Call
}.

Definition AsyncStorage_getItem (key : string) (st : Storage)
  : option Doc * Storage :=
  (disk st !! key, mkStorage (disk st) (CGetItem key :: calls st)).

Definition AsyncStorage_setItem (key : string) (v : Doc) (st : Storage)
  : Storage :=
  mkStorage (<[key := v]> (disk st)) (CSetItem key v :: calls st).

Definition AsyncStorage_removeItem (key : string) (st : Storage) : Storage :=
  mkStorage (delete key (disk st)) (CRemoveItem key :: calls st).

Definition AsyncStorage_multiGet (keys : list string) (st : Storage)
  : list (string * option Doc) * Storage :=
  (map (fun k => (k, disk st !! k)) keys,
   mkStorage (disk st) (CMultiGet keys :: calls st)).

Definition AsyncStorage_multiSet (rows : list (string * Doc)) (st : Storage)
  : Storage :=
  mkStorage (fold_left (fun m kv => <[kv.1 := kv.2]> m) rows (disk st))
            (CMultiSet rows :: calls st).

Definition AsyncStorage_multiRemove (keys : list string) (st : Storage)
  : Storage :=
  mkStorage (fold_left (fun m k => delete k m) keys (disk st))
            (CMultiRemove keys :: calls st).

Definition AsyncStorage_getAllKeys (st : Storage) : list string * Storage :=
  (map fst (map_to_list (disk st)),
   mkStorage (disk st) (CGetAllKeys :: calls st)).

(** ** Table lifecycle *)

(** The key of an item: [`${table.name}|${id}`]. *)
Definition itemKey (tableName : string) (id : option JsValue) : string :=
  tableName +:+ "|" +:+ ToString id.

Definition tableNotFound (name : string) : Error :=
  MkError ("A table named '" +:+ name +:+ "' couldn't be found.").

Definition indexNotFound (indexName : string) : Error :=
  MkError ("An index named '" +:+ indexName +:+ "' could not be found.").

Definition defineTable (name : string)
    (indexes : option (list (string * LocalIndexDef))) (st : Storage)
  : Completion unit * Storage :=
  let (table, st) := AsyncStorage_getItem name st in
  match table with
  | Some _ => (Return tt, st)
  | None =>
      let table := DTable (mkTable name 1 (default [] indexes)) in
      (Return tt, AsyncStorage_setItem name table st)
  end.

(** [openTable] hands back whatever document is stored under [name]. *)
Definition openTable (name : string) (st : Storage)
  : Completion Doc * Storage :=
  let (table, st) := AsyncStorage_getItem name st in
  match table with
  | None => (Throw (tableNotFound name), st)
  | Some d => (Return d, st)
  end.

Fixpoint startsWith (k p : string) {struct p} : bool :=
  match p, k with
  | EmptyString, _ => true
  | String a p', String b k' => Ascii.eqb a b && startsWith k' p'
  | String _ _, EmptyString => false
  end.

Definition isTableKey (name k : string) : bool :=
  String.eqb k name || startsWith k (name +:+ "|").

Definition deleteTable (name : string) (st : Storage)
  : Completion unit * Storage :=
  let (allKeys, st) := AsyncStorage_getAllKeys st in
  let tableKeys := filter (fun k => isTableKey name k = true) allKeys in
  if (0 <? Z.of_nat (length tableKeys))
  then (Return tt, AsyncStorage_multiRemove tableKeys st)
  else (Return tt, st).

(** ** Reading an item *)

Definition getItem (table : LocalTableDef) (id : option JsValue) (st : Storage)
  : Completion (option Doc) * Storage :=
  let key := itemKey (name table) id in
  let (item, st) := AsyncStorage_getItem key st in
  (Return item, st).

(** ** Sorting *)

(** [String.prototype.localeCompare] depends on the host's collation; the
    store only relies on it being a consistent comparison. *)
Class Collation : Type := {
  localeCompare : string -> string -> Z;
  localeCompare_total :
    forall s t, localeCompare s t <= 0 \/ localeCompare t s <= 0;
  localeCompare_trans :
    forall s t u,
      localeCompare s t <= 0 -> localeCompare t u <= 0 ->
      localeCompare s u <= 0
}.

(** [Array.prototype.sort(comparefn)] as a stable insertion sort: an element
    stays before the elements it compares equal to, and [comparefn] gets the
    earlier element first. With a consistent [comparefn] every stable sort
    gives this result. An exception of [comparefn] ends the sort. Which of
    two elements that compare equal comes first, and which of two elements
    [comparefn] gets first, is the choice of the engine: of a sorted array
    the properties state what holds for every sort (it is in order and
    holds the same elements), and they rely on an exception only where
    [comparefn] throws whichever element it gets first. *)
Section Array_sort.
Context {A : Type} (comparefn : A -> A -> Completion Z).

Fixpoint insertSorted (x : A) (l : list A) : Completion (list A) :=
  match l with
  | [] => Return [x]
  | y :: l' =>
      c ← comparefn x y;
      if c <=? 0 then Return (x :: y :: l')
      else r ← insertSorted x l'; Return (y :: r)
  end.

Fixpoint Array_sort (l : list A) : Completion (list A) :=
  match l with
  | [] => Return []
  | x :: l' => s ← Array_sort l'; insertSorted x s
  end.
End Array_sort.

(** ** Index maintenance and [setItem] *)

(** [ToNumber]; [None] is [NaN]. *)
Definition ToNumber (v : option JsValue) : option Z :=
  match v with
  | None => None
  | Some JNull => Some 0
  | Some (JBool b) => Some (Z.b2z b)
  | Some (JNum n) => Some n
  | Some (JStr s) => StringToNumber s
  end.

(** [a - b] as a sort key: the sort reads a [NaN] as [+0]. *)
Definition minus (a b : option JsValue) : Z :=
  match ToNumber a, ToNumber b with
  | Some x, Some y => x - y
  | _, _ => 0
  end.

Definition boolOf (b : option bool) : bool := default false b.   (* !!b *)

Definition setValues (index : LocalIndexDef) (vs : list LocalIndexKey)
  : LocalIndexDef :=
  mkIndex (ascending index) (numerical index) (Some vs).

Definition setIndexes (table : LocalTableDef)
    (ixs : list (string * LocalIndexDef)) : LocalTableDef :=
  mkTable (name table) (nextId table) ixs.

(** The own property [indexName] of [table.indexes]. *)
Fixpoint getIndex (ixs : list (string * LocalIndexDef)) (indexName : string)
  : option LocalIndexDef :=
  match ixs with
  | [] => None
  | (field, index) :: rest =>
      if String.eqb field indexName then Some index
      else getIndex rest indexName
  end.

(** The names that every object inherits from [Object.prototype]:
    [table.indexes[indexName]] finds a function (or, for [__proto__], the
    prototype) under them when the table has no index of that name. What it
    finds has no array under [values]. *)
Definition inheritedName (indexName : string) : bool :=
  bool_decide
    (indexName ∈ [ "constructor"; "hasOwnProperty"; "isPrototypeOf";
                   "propertyIsEnumerable"; "toLocaleString"; "toString";
                   "valueOf"; "__proto__"; "__defineGetter__";
                   "__defineSetter__"; "__lookupGetter__";
                   "__lookupSetter__" ]%string).

Section Store.
Context {collation : Collation}.

(** [(this as string).localeCompare(that)]: only a string has the method. *)
Definition String_localeCompare (this that : option JsValue)
  : Completion Z :=
  match this with
  | Some (JStr s) => Return (localeCompare s (ToString that))
  | _ => Throw TypeError
  end.

(** The comparator [updateTableIndexes] picks for an index. *)
Definition comparefn (numerical ascending : bool) (a b : LocalIndexKey)
  : Completion Z :=
  if numerical then
    if ascending then Return (minus (key_value a) (key_value b))
    else Return (minus (key_value b) (key_value a))
  else
    if ascending then String_localeCompare (key_value a) (key_value b)
    else String_localeCompare (key_value b) (key_value a).

(** The scan for the entry of [id]: the new array, [newEntry], [changed]. *)
Fixpoint modifyExisting (vs : list LocalIndexKey) (id value : option JsValue)
  : list LocalIndexKey * bool * bool :=
  match vs with
  | [] => ([], true, false)
  | e :: rest =>
      if looseEq (key_id e) id then
        if negb (strictEq (key_value e) value)
        then (mkKey (key_id e) value :: rest, false, true)
        else (e :: rest, false, false)
      else
        let '(rest', newEntry, changed) := modifyExisting rest id value in
        (e :: rest', newEntry, changed)
  end.

(** One turn of the loop of [updateTableIndexes]: whether the index
    changed, and the index object as the turn leaves it. When the sort
    throws, the array stays as it was handed to the sort, with the entry
    pushed or updated. *)
Definition updateIndex (field : string) (index : LocalIndexDef) (item : Item)
  : Completion bool * LocalIndexDef :=
  let id := item !! "id"%string in
  let value := item !! field in
  let numerical := boolOf (numerical index) in
  let value :=
    if numerical && negb (isNumber value) then Some (JNum 0) else value in
  let '(vs, newEntry, changed) :=
    match values index with
    | Some vs => modifyExisting vs id value
    | None => ([], true, false)
    end in
  let '(vs, changed) :=
    if newEntry then (vs ++ [mkKey id value], true) else (vs, changed) in
  if changed then
    let ascending := boolOf (ascending index) in
    match Array_sort (comparefn numerical ascending) vs with
    | Return sorted => (Return true, setValues index sorted)
    | Throw e => (Throw e, setValues index vs)
    end
  else (Return false, setValues index vs).

Fixpoint updateIndexes (ixs : list (string * LocalIndexDef)) (item : Item)
    (modified : bool) : Completion bool * list (string * LocalIndexDef) :=
  match ixs with
  | [] => (Return modified, [])
  | (field, index) :: rest =>
      let (c, index') := updateIndex field index item in
      match c with
      | Throw e => (Throw e, (field, index') :: rest)
      | Return changed =>
          let (r, rest') := updateIndexes rest item (modified || changed) in
          (r, (field, index') :: rest')
      end
  end.

Definition updateTableIndexes (table : LocalTableDef) (item : Item)
  : Completion bool * LocalTableDef :=
  let (r, ixs) := updateIndexes (indexes table) item false in
  (r, setIndexes table ixs).

(** [setItem] mutates the table definition and the item it is given, so
    both come back, whether the call returns or throws. *)
Definition setItem (table : LocalTableDef) (item : Item) (st : Storage)
  : Completion unit * (LocalTableDef * Item * Storage) :=
  let '(table, item, saveTableDef) :=
    if negb (truthy (item !! "id"%string))
    then (mkTable (name table) (nextId table + 1) (indexes table),
          <["id"%string := JNum (nextId table)]> item, true)
    else (table, item, false) in
  let (r, table) := updateTableIndexes table item in
  match r with
  | Throw e => (Throw e, (table, item, st))
  | Return modified =>
      let saveTableDef := saveTableDef || modified in
      let rows :=
        (itemKey (name table) (item !! "id"%string), DItem item) ::
        (if saveTableDef then [(name table, DTable table)] else []) in
      (Return tt, (table, item, AsyncStorage_multiSet rows st))
  end.
End Store.

(** ** Removing and listing *)

(** The scan of [removeItem] over one index: [splice] at the first match. *)
Fixpoint spliceMatch (vs : list LocalIndexKey) (id : option JsValue)
  : list LocalIndexKey * bool :=
  match vs with
  | [] => ([], false)
  | e :: rest =>
      if looseEq (key_id e) id then (rest, true)
      else let (rest', found) := spliceMatch rest id in (e :: rest', found)
  end.

Fixpoint removeFromIndexes (ixs : list (string * LocalIndexDef))
    (id : option JsValue) (modified : bool)
  : list (string * LocalIndexDef) * bool :=
  match ixs with
  | [] => ([], modified)
  | (field, index) :: rest =>
      let '(index', found) :=
        match values index with
        | Some vs =>
            let (vs', found) := spliceMatch vs id in (setValues index vs', found)
        | None => (index, false)
        end in
      let (rest', modified) := removeFromIndexes rest id (modified || found) in
      ((field, index') :: rest', modified)
  end.

Definition removeItem (table : LocalTableDef) (id : option JsValue)
    (st : Storage) : Completion unit * (LocalTableDef * Storage) :=
  let (ixs, modified) := removeFromIndexes (indexes table) id false in
  let table := setIndexes table ixs in
  let st :=
    if modified then AsyncStorage_setItem (name table) (DTable table) st
    else st in
  (Return tt, (table, AsyncStorage_removeItem (itemKey (name table) id) st)).

(** [values[i]] for a number [i]. *)
Definition at_index {A : Type} (l : list A) (i : Z) : option A :=
  if i <? 0 then None else l !! Z.to_nat i.

(** The [while] loop of [listItems]; [count] counts the turns left. *)
Fixpoint collectKeys (tableName : string) (vs : list LocalIndexKey)
    (i : Z) (count : nat) (keys : list string)
  : Completion (list string * Z) :=
  match count with
  | O => Return (keys, i)
  | S count' =>
      if i <? Z.of_nat (length vs) then
        match at_index vs i with
        | Some e =>
            collectKeys tableName vs (i + 1) count'
              (keys ++ [itemKey tableName (key_id e)])
        | None => Throw TypeError
        end
      else Return (keys, i)
  end.

(** [continuation ? parseInt(continuation) : 0]; [None] is [NaN]. *)
Definition startIndexOf (continuation : option string) : option Z :=
  match continuation with
  | Some c => if String.eqb c "" then Some 0 else parseInt c
  | None => Some 0
  end.

Definition listItems (table : LocalTableDef) (indexName : string)
    (count : option Z) (continuation : option string) (st : Storage)
  : Completion StorageResults * Storage :=
  let count := default 10 count in
  let startIndex := startIndexOf continuation in
  match getIndex (indexes table) indexName with
  | None =>
      if inheritedName indexName then (Return (mkResults [] None), st)
      else (Throw (indexNotFound indexName), st)
  | Some index =>
      match values index, startIndex with
      | Some vs, Some start =>
          if start <? Z.of_nat (length vs) then
            match collectKeys (name table) vs start (Z.to_nat count) [] with
            | Throw e => (Throw e, st)
            | Return (keys, i) =>
                let (r, st) := AsyncStorage_multiGet keys st in
                let items := map snd r in
                let continuation :=
                  if i <? Z.of_nat (length vs)
                  then Some (Number_toString i) else None in
                (Return (mkResults items continuation), st)
            end
          else (Return (mkResults [] None), st)
      | _, _ => (Return (mkResults [] None), st)
      end
  end.

(** A caller that pages through an index: it calls [listItems], keeps the
    page, and calls again with the continuation while the page has one.
    [fuel] bounds the number of calls; [None] means the bound was reached. *)
Fixpoint listPages (fuel : nat) (table : LocalTableDef) (indexName : string)
    (count : option Z) (token : option string) (st : Storage)
  : option (Completion (list StorageResults)) :=
  match fuel with
  | O => None
  | S fuel' =>
      match listItems table indexName count token st with
      | (Throw e, _) => Some (Throw e)
      | (Return page, st') =>
          match page.(continuation) with
          | None => Some (Return [page])
          | Some c =>
              match listPages fuel' table indexName count (Some c) st' with
              | Some (Return pages) => Some (Return (page :: pages))
              | other => other
              end
          end
      end
  end.

(** ** A collation: comparison by code units *)

Definition ordinalCompare (s t : string) : Z :=
  match String.compare s t with
  | Lt => -1
  | Eq => 0
  | Gt => 1
  end.

#[global] Program Instance ordinal_collation : Collation :=
  {| localeCompare := ordinalCompare |}.
Next Obligation.
  intros s t. unfold ordinalCompare. rewrite (String.compare_antisym s t).
  destruct (String.compare t s); simpl; lia.
Qed.
Next Obligation.
  assert (T : forall s t u, String.compare s t <> Gt ->
                String.compare t u <> Gt -> String.compare s u <> Gt).
  { induction s as [|a s IH]; intros [|b t] [|c u]; simpl; try congruence.
    unfold Ascii.compare.
    destruct (N.compare_spec (N_of_ascii a) (N_of_ascii b)) as [Hab|Hab|Hab];
      destruct (N.compare_spec (N_of_ascii b) (N_of_ascii c)) as [Hbc|Hbc|Hbc];
      try congruence; intros H1 H2.
    - rewrite Hab, Hbc, N.compare_refl. eauto.
    - rewrite Hab. apply N.compare_lt_iff in Hbc. rewrite Hbc. congruence.
    - rewrite <- Hbc. apply N.compare_lt_iff in Hab. rewrite Hab. congruence.
    - assert (Hac : (N_of_ascii a < N_of_ascii c)%N) by lia.
      apply N.compare_lt_iff in Hac. rewrite Hac. congruence. }
  intros s t u. unfold ordinalCompare. intros H1 H2.
  pose proof (T s t u) as H.
  destruct (String.compare s t), (String.compare t u), (String.compare s u);
    try lia; exfalso; apply H; congruence.
Qed.

(** ** The validation routine of the source, on the model *)

Definition testIndexes : list (string * LocalIndexDef) :=
  [ ("name"%string, mkIndex (Some true) None None);
    ("age"%string, mkIndex (Some true) (Some true) None);
    ("reports"%string, mkIndex (Some false) (Some true) None);
    ("role"%string, mkIndex (Some false) None None) ].

Definition person (n : string) (age reports : Z) (role : string) : Item :=
  {[ "name"%string := JStr n; "age"%string := JNum age;
     "reports"%string := JNum reports; "role"%string := JStr role ]}.

Definition testTable : LocalTableDef * Storage :=
  let st := (defineTable "test" (Some testIndexes) (mkStorage ∅ [])).2 in
  let table := mkTable "test" 1 testIndexes in
  let '(_, (table, _, st)) := setItem table (person "steve" 51 2 "dad") st in
  let '(_, (table, _, st)) := setItem table (person "annabelle" 4 0 "daughter") st in
  let '(_, (table, _, st)) := setItem table (person "donna" 48 1 "wife") st in
  (table, st).

Definition indexOrder (table : LocalTableDef) (indexName : string)
  : list (option JsValue) :=
  match getIndex (indexes table) indexName with
  | Some index => map key_value (default [] (values index))
  | None => []
  end.

(** ** Notions used by the properties *)

(** Decimal strings. *)

Fixpoint isDecimal (s : string) : bool :=
  match s with
  | EmptyString => true
  | String c s' => (48 <=? code c) && (code c <=? 57) && isDecimal s'
  end.

Fixpoint decDigits (s : string) : list Z :=
  match s with
  | EmptyString => []
  | String c s' => (code c - 48) :: decDigits s'
  end.

Definition decValue (s : string) : Z := digitsValue 10 (decDigits s).


Definition withoutId (id : option JsValue) (index : LocalIndexDef)
  : LocalIndexDef :=
  match values index with
  | Some vs => setValues index (spliceMatch vs id).1
  | None => index
  end.



(** A safe integer: below 2^53 in magnitude, where a double holds every
    integer and the next one. *)
Definition safeInteger (n : Z) : bool := (- 2 ^ 53 <? n) && (n <? 2 ^ 53).

(** A string that starts like no number: its first character is no white
    space, no digit, no sign and no dot, so that [ToNumber] gives [NaN] for
    it (or an infinity, for [Infinity]), which equals no integer. *)
Definition plainName (s : string) : bool :=
  match s with
  | EmptyString => false
  | String c _ =>
      negb (isWhiteSpace c)
      && negb ((48 <=? code c) && (code c <=? 57))
      && negb ((code c =? 43) || (code c =? 45) || (code c =? 46))
  end.

(** An id whose loose equality agrees with its storage key: a safe
    integer, the decimal form of a safe integer, or a string that starts
    like no number. *)
Definition canonicalId (id : option JsValue) : bool :=
  match id with
  | Some (JNum n) => safeInteger n
  | Some (JStr s) =>
      match StringToNumber s with
      | Some n => String.eqb s (Number_toString n) && safeInteger n
      | None => plainName s
      end
  | _ => false
  end.


Definition idString (e : LocalIndexKey) : string := ToString (key_id e).

Definition entries (index : LocalIndexDef) : list LocalIndexKey :=
  default [] (values index).

Definition valueFits (numerical : bool) (v : option JsValue) : bool :=
  match v with
  | Some (JNum n) => numerical && safeInteger n
  | Some (JStr _) => negb numerical
  | _ => false
  end.

(** The index invariant. *)
Section Consistency.
Context {collation : Collation}.

(** [a] may stand before [b]: increasing or decreasing numbers in a
    numerical index, increasing or decreasing strings in the collation's
    order otherwise. *)
Definition inOrder (numerical ascending : bool) (a b : LocalIndexKey)
  : Prop :=
  match key_value a, key_value b with
  | Some (JNum x), Some (JNum y) =>
      numerical = true /\ if ascending then x <= y else y <= x
  | Some (JStr s), Some (JStr t) =>
      numerical = false /\
      if ascending then localeCompare s t <= 0 else localeCompare t s <= 0
  | _, _ => False
  end.


End Consistency.




(** ** Sequences of calls *)

Inductive Op : Type :=
  | OpSet (item : Item)              (* setItem(table, item) *)
  | OpRemove (id : option JsValue).  (* removeItem(table, id) *)

(** The calls of [ops] one after the other on the same table object; the
    first exception ends the run. *)
Fixpoint run {collation : Collation} (table : LocalTableDef) (ops : list Op)
    (st : Storage) : Completion unit * (LocalTableDef * Storage) :=
  match ops with
  | [] => (Return tt, (table, st))
  | OpSet item :: rest =>
      match setItem table item st with
      | (Return _, (table', _, st')) => run table' rest st'
      | (Throw e, (table', _, st')) => (Throw e, (table', st'))
      end
  | OpRemove id :: rest =>
      match removeItem table id st with
      | (Return _, (table', st')) => run table' rest st'
      | (Throw e, s) => (Throw e, s)
      end
  end.


Definition witnessTable : LocalTableDef := mkTable "test" 1 testIndexes.


(** [setItem] for each item in turn on the same table object, by a caller
    that goes on after a call that threw: the completion of each call and
    the item as the call left it. *)
Fixpoint setItems {collation : Collation} (table : LocalTableDef)
    (its : list Item) (st : Storage)
  : list (Completion unit * Item) * (LocalTableDef * Storage) :=
  match its with
  | [] => ([], (table, st))
  | item :: rest =>
      let '(r, (table', item', st')) := setItem table item st in
      let '(rs, final) := setItems table' rest st' in
      ((r, item') :: rs, final)
  end.

(** The log of the application: a table with an index on [timestamp] that
    is not numerical, and entries whose timestamps are numbers. *)
Definition locationLog : LocalTableDef :=
  mkTable "location-log" 1 [("timestamp"%string, mkIndex (Some false) None None)].

Definition logEntry (timestamp : Z) (where_ : string) : Item :=
  {[ "timestamp"%string := JNum timestamp; "where"%string := JStr where_ ]}.

(** ** Location tracking ([background/location.ts])

    The module keeps its subscriptions, options, current location and
    address cache in module variables; [State] holds them. What it asks of
    the platform (permissions, location updates, geocoding, timers) and the
    callbacks it calls are recorded in [events], oldest first. A callback is
    an opaque value: the module only stores it and calls it. The
    coordinates of a fix are floating-point numbers that the module only
    hands to [getDistance] (of [geolib], metres as an integer) and to the
    geocoder, so their type is left open. One run of a function is taken
    without another one interleaved at its [await]. *)

Module Location.
Section Location.
Context {Coords Callback ErrorCallback : Type}.
Context (getDistance : Coords -> Coords -> Z).
(** [ExpoLocation.Accuracy.High] and [ExpoLocation.ActivityType.Other]. *)
Context (Accuracy_High ActivityType_Other : Z).

(** [LocationInfo]: a fix and its address, a record of the geocoder
    ([address !! "city"] is [address.city]); [None] when it has none. *)
Record LocationInfo : Type := mkInfo {
  coords : Coords;
  timestamp : Z;
  address : option Item
}.

Record LocationTrackingOptions : Type := mkOptions {
  accuracy : option Z;
  timeInterval : option Z;
  distanceInterval : option Z;
  dwellTime : option Z;
  cacheSize : option Z;
  apiKey : option string
}.

(** A [Symbol] is known by its rank among the symbols created so far. *)
Definition Symbol : Type := nat.

Inductive Event : Type :=
  | Called (callback : Callback) (location : LocationInfo)
  | CalledError (callback : ErrorCallback) (err : Error)
  | SetApiKey (key : string)
  | AskAsync
  | StartLocationUpdatesAsync (taskName : string)
      (accuracy timeInterval distanceInterval : Z)
      (pausesUpdatesAutomatically : bool) (activityType : Z)
  | ReverseGeocodeAsync (c : Coords)
  | SetTimeout (info : LocationInfo) (delay : option Z).

(** The module variables; a [Map] keeps its entries in insertion order. *)
Record State : Type := mkState {
  changeSubscriptions : list (Symbol * Callback);
  errorSubscriptions : list (Symbol * ErrorCallback);
  trackingOptions : option LocationTrackingOptions;
  currentLocation : option LocationInfo;
  locationCache : list LocationInfo;
  symbols : nat;
  events : list Event
}.

(** The module as it is loaded. *)
Definition initial : State := mkState [] [] None None [] 0 [].

Definition emit (new : list Event) (s : State) : State :=
  mkState (changeSubscriptions s) (errorSubscriptions s) (trackingOptions s)
          (currentLocation s) (locationCache s) (symbols s) (events s ++ new).

Definition setCurrentLocation (info : LocationInfo) (s : State) : State :=
  mkState (changeSubscriptions s) (errorSubscriptions s) (trackingOptions s)
          (Some info) (locationCache s) (symbols s) (events s).

Definition setLocationCache (cache : list LocationInfo) (s : State) : State :=
  mkState (changeSubscriptions s) (errorSubscriptions s) (trackingOptions s)
          (currentLocation s) cache (symbols s) (events s).

Definition compareLocations (l1 l2 : option LocationInfo) : bool :=
  match l1, l2 with
  | Some l1, Some l2 =>
      match address l1, address l2 with
      | Some a1, Some a2 =>
          if negb (strictEq (a1 !! "name"%string) (a2 !! "name"%string))
          then false
          else if negb (strictEq (a1 !! "street"%string) (a2 !! "street"%string))
          then false
          else if negb (strictEq (a1 !! "city"%string) (a2 !! "city"%string))
          then false
          else if negb (strictEq (a1 !! "region"%string) (a2 !! "region"%string))
          then false
          else if negb (strictEq (a1 !! "country"%string) (a2 !! "country"%string))
          then false
          else true
      | _, _ => false
      end
  | _, _ => false
  end.

(** [d <= radius], where [radius] is [NaN] when the option is missing. *)
Definition within (radius : option Z) (d : Z) : bool :=
  match radius with
  | Some r => d <=? r
  | None => false
  end.

(** The scan of the cache in [findAddress]. *)
Fixpoint consult (radius : option Z) (c : Coords)
    (cache : list LocationInfo) : option LocationInfo :=
  match cache with
  | [] => None
  | entry :: rest =>
      if within radius (getDistance c (coords entry)) then Some entry
      else consult radius c rest
  end.

(** [addresses] is what [reverseGeocodeAsync] answers when it is asked:
    [None] when the answer is not an array. *)
Definition findAddress (location : LocationInfo)
    (addresses : option (list Item)) (s : State)
  : Completion LocationInfo * State :=
  match trackingOptions s with
  | None => (Throw TypeError, s)
  | Some options =>
      let radius := (fun d => d / 2) <$> distanceInterval options in
      match consult radius (coords location) (locationCache s) with
      | Some entry => (Return entry, s)
      | None =>
          let s := emit [ReverseGeocodeAsync (coords location)] s in
          let info :=
            match addresses with
            | Some (a :: _) =>
                mkInfo (coords location) (timestamp location) (Some a)
            | _ => location
            end in
          let cache := locationCache s ++ [info] in
          let cache :=
            match cacheSize options with
            | Some n => if n <? Z.of_nat (length cache) then tail cache else cache
            | None => cache
            end in
          (Return info, setLocationCache cache s)
      end
  end.

(** [changeSubscriptions.forEach(callback => callback(location))]. *)
Definition notifyChange (location : LocationInfo) (s : State) : State :=
  emit (map (fun kc => Called kc.2 location) (changeSubscriptions s)) s.

Definition notifyError (err : Error) (s : State) : State :=
  emit (map (fun kc => CalledError kc.2 err) (errorSubscriptions s)) s.

(** The task: [locations] is [data.locations] ([None] when [data] or the
    array is missing), [error] the message of the error object. *)
Definition TASK_HANDLER (locations : option (list LocationInfo))
    (error : option string) (addresses : option (list Item)) (s : State)
  : Completion unit * State :=
  match error with
  | Some message => (Return tt, notifyError (MkError message) s)
  | None =>
      let '(r, s) :=
        match locations with
        | Some (location :: _) =>
            let (r, s) := findAddress location addresses s in
            (info ← r; Return (Some info), s)
        | _ => (Return None, s)
        end in
      match r with
      | Throw e => (Throw e, s)
      | Return None => (Return tt, s)
      | Return (Some info) =>
          if bool_decide (is_Some (address info))
             && negb (compareLocations (Some info) (currentLocation s))
          then
            match currentLocation s with
            | Some _ =>
                let s := setCurrentLocation info s in
                match trackingOptions s with
                | Some options =>
                    (Return tt, emit [SetTimeout info (dwellTime options)] s)
                | None => (Throw TypeError, s)
                end
            | None =>
                (Return tt, notifyChange info (setCurrentLocation info s))
            end
          else (Return tt, s)
      end
  end.

(** The function that [TASK_HANDLER] hands to [setTimeout]. *)
Definition dwellElapsed (info : LocationInfo) (s : State) : State :=
  if compareLocations (Some info) (currentLocation s) then
    match currentLocation s with
    | Some location => notifyChange location s
    | None => s
    end
  else s.

(** [Object.assign(defaults, options)]. *)
Definition withDefaults (options : option LocationTrackingOptions)
  : LocationTrackingOptions :=
  let o := default (mkOptions None None None None None None) options in
  mkOptions (Some (default Accuracy_High (accuracy o)))
            (Some (default 1000 (timeInterval o)))
            (Some (default 10 (distanceInterval o)))
            (Some (default (1000 * 60 * 1) (dwellTime o)))
            (Some (default 100 (cacheSize o)))
            (apiKey o).

(** The answer of [Permissions.askAsync]: [status] and
    [permissions.location.ios.scope]. *)
Record PermissionResponse : Type := mkResponse {
  status : string;
  scope : option string
}.

(** [start]: [OS] is [Platform.OS]; the result is [None] when the function
    ends without a [return]. *)
Definition start (taskName : string)
    (options : option LocationTrackingOptions) (OS : string)
    (response : PermissionResponse) (s : State) : option bool * State :=
  let trackingOptions := withDefaults options in
  let s :=
    mkState (changeSubscriptions s) (errorSubscriptions s)
            (Some trackingOptions) (currentLocation s) (locationCache s)
            (symbols s) (events s) in
  let s :=
    match apiKey trackingOptions with
    | Some key => if String.eqb key "" then s else emit [SetApiKey key] s
    | None => s
    end in
  let s := emit [AskAsync] s in
  if negb (String.eqb (status response) "granted")
     || (String.eqb OS "ios"
         && negb (bool_decide (scope response = Some "always"%string)))
  then (Some false, s)
  else
    (None,
     emit [StartLocationUpdatesAsync taskName Accuracy_High 1000 10 true
             ActivityType_Other] s).

(** [subscribeToChanges] gives back a function that cancels the
    subscription; the key it closes over stands for it. *)
Definition subscribeToChanges (callback : Callback) (s : State)
  : Symbol * State :=
  let key := symbols s in
  let s :=
    mkState (changeSubscriptions s ++ [(key, callback)])
            (errorSubscriptions s) (trackingOptions s) (currentLocation s)
            (locationCache s) (S (symbols s)) (events s) in
  let s :=
    match currentLocation s with
    | Some location => emit [Called callback location] s
    | None => s
    end in
  (key, s).

Definition cancelChange (key : Symbol) (s : State) : State :=
  mkState (filter (fun kc => kc.1 <> key) (changeSubscriptions s))
          (errorSubscriptions s) (trackingOptions s) (currentLocation s)
          (locationCache s) (symbols s) (events s).

Definition subscribeToErrors (callback : ErrorCallback) (s : State)
  : Symbol * State :=
  let key := symbols s in
  (key,
   mkState (changeSubscriptions s) (errorSubscriptions s ++ [(key, callback)])
           (trackingOptions s) (currentLocation s) (locationCache s)
           (S (symbols s)) (events s)).

Definition cancelError (key : Symbol) (s : State) : State :=
  mkState (changeSubscriptions s)
          (filter (fun kc => kc.1 <> key) (errorSubscriptions s))
          (trackingOptions s) (currentLocation s) (locationCache s)
          (symbols s) (events s).

(** What can happen to the module, one call at a time: the calls of its
    clients, the task that the platform runs and the timers that fire. *)
Inductive Step : Type :=
  | SubscribeToChanges (callback : Callback)
  | CancelChange (key : Symbol)
  | SubscribeToErrors (callback : ErrorCallback)
  | CancelError (key : Symbol)
  | Task (locations : option (list LocationInfo)) (error : option string)
      (addresses : option (list Item))
  | DwellElapsed (info : LocationInfo)
  | Start (taskName : string) (options : option LocationTrackingOptions)
      (OS : string) (response : PermissionResponse).

Definition step (a : Step) (s : State) : State :=
  match a with
  | SubscribeToChanges callback => (subscribeToChanges callback s).2
  | CancelChange key => cancelChange key s
  | SubscribeToErrors callback => (subscribeToErrors callback s).2
  | CancelError key => cancelError key s
  | Task locations error addresses =>
      (TASK_HANDLER locations error addresses s).2
  | DwellElapsed info => dwellElapsed info s
  | Start taskName options OS response =>
      (start taskName options OS response s).2
  end.

Definition run (steps : list Step) (s : State) : State :=
  fold_left (fun s a => step a s) steps s.

(** The keys in use are symbols that have been created. *)
Definition keysCreated (s : State) : Prop :=
  Forall (fun kc => (kc.1 < symbols s)%nat) (changeSubscriptions s) /\
  Forall (fun kc => (kc.1 < symbols s)%nat) (errorSubscriptions s).

(** The fields that [compareLocations] reads agree. *)
Definition sameAddress (a1 a2 : Item) : Prop :=
  a1 !! "name"%string = a2 !! "name"%string /\
  a1 !! "street"%string = a2 !! "street"%string /\
  a1 !! "city"%string = a2 !! "city"%string /\
  a1 !! "region"%string = a2 !! "region"%string /\
  a1 !! "country"%string = a2 !! "country"%string.
End Location.
End Location.

(** ** The application state manager ([localStore.ts])

    The manager keeps the handles of its two tables and the default
    settings in module variables; [State] holds them, [None] until [start]
    has assigned them. *)

Module LocalStore.

(** A property of the object that [getSettings] gives back: a scalar, or
    the [indexes] of a document that is a table definition. *)
Inductive Property : Type :=
  | PValue (v : JsValue)
  | PIndexes (ixs : list (string * LocalIndexDef)).

Definition properties (d : Doc) : gmap string Property :=
  match d with
  | DItem i => PValue <$> i
  | DTable t =>
      {[ "name"%string := PValue (JStr (name t));
         "nextId"%string := PValue (JNum (nextId t));
         "indexes"%string := PIndexes (indexes t) ]}
  end.

(** [Object.assign(target, source)]; a source that is [undefined] or [null]
    is skipped. *)
Definition Object_assign (target : gmap string Property)
    (source : option (gmap string Property)) : gmap string Property :=
  match source with
  | Some source => source ∪ target
  | None => target
  end.

Definition APPLICATION_TABLE : string := "application".
Definition LOCATION_LOG_TABLE : string := "location-log".

Record State : Type := mkState {
  _applicationTable : option LocalTableDef;
  _locationLog : option LocalTableDef;
  _defaultSettings : option Item
}.

(** The module as it is loaded. *)
Definition initial : State := mkState None None None.

Section LocalStore.
Context {collation : Collation}.
Context {Coords Callback ErrorCallback : Type}.

(** [start]: [handler] is the function it subscribes, which hands a
    location to [handleLocationChanged]. The result is [None] when a key of
    a table holds a document that is not a table definition: the handle
    would not be a [LocalTableDef]. *)
Definition start (handler : Callback) (defaultSettings : Item) (s : State)
    (loc : @Location.State Coords Callback ErrorCallback) (st : Storage)
  : option (Completion unit
            * (State * @Location.State Coords Callback ErrorCallback * Storage)) :=
  let s := mkState (_applicationTable s) (_locationLog s) (Some defaultSettings) in
  let (r, st) := defineTable APPLICATION_TABLE None st in
  match r with
  | Throw e => Some (Throw e, (s, loc, st))
  | Return _ =>
  let (r, st) :=
    defineTable LOCATION_LOG_TABLE
      (Some [("timestamp"%string, mkIndex (Some false) None None)]) st in
  match r with
  | Throw e => Some (Throw e, (s, loc, st))
  | Return _ =>
  let (r, st) := openTable APPLICATION_TABLE st in
  match r with
  | Throw e => Some (Throw e, (s, loc, st))
  | Return (DItem _) => None
  | Return (DTable table) =>
  let s := mkState (Some table) (_locationLog s) (_defaultSettings s) in
  let (r, st) := openTable LOCATION_LOG_TABLE st in
  match r with
  | Throw e => Some (Throw e, (s, loc, st))
  | Return (DItem _) => None
  | Return (DTable table) =>
  let s := mkState (_applicationTable s) (Some table) (_defaultSettings s) in
  let (_, loc) := Location.subscribeToChanges handler loc in
  Some (Return tt, (s, loc, st))
  end end end end.

(** [getSettings]: reading a property of a variable that is [undefined]
    throws a [TypeError]. *)
Definition getSettings (s : State) (st : Storage)
  : Completion (gmap string Property) * Storage :=
  match _defaultSettings s, _applicationTable s with
  | Some defaultSettings, Some table =>
      let (r, st) := getItem table (defaultSettings !! "id"%string) st in
      match r with
      | Throw e => (Throw e, st)
      | Return settings =>
          (Return (Object_assign (PValue <$> defaultSettings)
                                 (properties <$> settings)), st)
      end
  | _, _ => (Throw TypeError, st)
  end.

Definition updateSettings (settings : Item) (s : State) (st : Storage)
  : Completion unit * (State * Item * Storage) :=
  match _applicationTable s with
  | Some table =>
      let '(r, (table, settings, st)) := setItem table settings st in
      (r, (mkState (Some table) (_locationLog s) (_defaultSettings s),
           settings, st))
  | None => (Throw TypeError, (s, settings, st))
  end.

Definition listLog (count : option Z) (continuation : option string)
    (s : State) (st : Storage) : Completion StorageResults * Storage :=
  match _locationLog s with
  | Some table => listItems table "timestamp" count continuation st
  | None => (Throw TypeError, st)
  end.

(** [upsertLogEntry]: [now] is what [new Date().getTime()] gives. *)
Definition upsertLogEntry (now : Z) (entry : Item) (s : State) (st : Storage)
  : Completion unit * (State * Item * Storage) :=
  let entry :=
    if looseEq (entry !! "timestamp"%string) None
    then <["timestamp"%string := JNum now]> entry
    else entry in
  match _locationLog s with
  | Some table =>
      let '(r, (table, entry, st)) := setItem table entry st in
      (r, (mkState (_applicationTable s) (Some table) (_defaultSettings s),
           entry, st))
  | None => (Throw TypeError, (s, entry, st))
  end.

Definition getLogEntry (id : option JsValue) (s : State) (st : Storage)
  : Completion (option Doc) * Storage :=
  match _locationLog s with
  | Some table => getItem table id st
  | None => (Throw TypeError, st)
  end.

Definition removeLogEntry (id : option JsValue) (s : State) (st : Storage)
  : Completion unit * (State * Storage) :=
  match _locationLog s with
  | Some table =>
      let '(r, (table, st)) := removeItem table id st in
      (r, (mkState (_applicationTable s) (Some table) (_defaultSettings s), st))
  | None => (Throw TypeError, (s, st))
  end.
End LocalStore.
End LocalStore.

(** ** The earlier revision of [localStorage.ts]

    The file holds an earlier revision of the store, which differs from the
    later one in [updateTableIndexes]: it reads [item['field']] whatever the
    field of the index is. *)

Module Earlier.
Section Earlier.
Context {collation : Collation}.

Definition updateIndex (index : LocalIndexDef) (item : Item)
  : Completion bool * LocalIndexDef :=
  let id := item !! "id"%string in
  let value := item !! "field"%string in
  let numerical := boolOf (numerical index) in
  let value :=
    if numerical && negb (isNumber value) then Some (JNum 0) else value in
  let '(vs, newEntry, changed) :=
    match values index with
    | Some vs => modifyExisting vs id value
    | None => ([], true, false)
    end in
  let '(vs, changed) :=
    if newEntry then (vs ++ [mkKey id value], true) else (vs, changed) in
  if changed then
    let ascending := boolOf (ascending index) in
    match Array_sort (comparefn numerical ascending) vs with
    | Return sorted => (Return true, setValues index sorted)
    | Throw e => (Throw e, setValues index vs)
    end
  else (Return false, setValues index vs).

Fixpoint updateIndexes (ixs : list (string * LocalIndexDef)) (item : Item)
    (modified : bool) : Completion bool * list (string * LocalIndexDef) :=
  match ixs with
  | [] => (Return modified, [])
  | (field, index) :: rest =>
      let (c, index') := updateIndex index item in
      match c with
      | Throw e => (Throw e, (field, index') :: rest)
      | Return changed =>
          let (r, rest') := updateIndexes rest item (modified || changed) in
          (r, (field, index') :: rest')
      end
  end.

Definition updateTableIndexes (table : LocalTableDef) (item : Item)
  : Completion bool * LocalTableDef :=
  let (r, ixs) := updateIndexes (indexes table) item false in
  (r, setIndexes table ixs).

Definition setItem (table : LocalTableDef) (item : Item) (st : Storage)
  : Completion unit * (LocalTableDef * Item * Storage) :=
  let '(table, item, saveTableDef) :=
    if negb (truthy (item !! "id"%string))
    then (mkTable (name table) (nextId table + 1) (indexes table),
          <["id"%string := JNum (nextId table)]> item, true)
    else (table, item, false) in
  let (r, table) := updateTableIndexes table item in
  match r with
  | Throw e => (Throw e, (table, item, st))
  | Return modified =>
      let saveTableDef := saveTableDef || modified in
      let rows :=
        (itemKey (name table) (item !! "id"%string), DItem item) ::
        (if saveTableDef then [(name table, DTable table)] else []) in
      (Return tt, (table, item, AsyncStorage_multiSet rows st))
  end.
End Earlier.
End Earlier.

(** ** The validation routine ([runTest], [assertIndexOrder], [assert])

    The routine runs against the storage and shows an alert when an
    assertion fails. [Test A] is a step of it: from the alerts shown so far
    (latest first) and the storage to a completion, the alerts and the
    storage; [None] when [openTable] hands back a document that is not a
    table definition, which the store does not provide for. *)

Definition Test (A : Type) : Type :=
  list (string * string) * Storage ->
  option (Completion A * (list (string * string) * Storage)).

#[global] Instance Test_ret : MRet Test := fun A a w => Some (Return a, w).
#[global] Instance Test_bind : MBind Test := fun A B f m w =>
  match m w with
  | Some (Return a, w') => f a w'
  | Some (Throw e, w') => Some (Throw e, w')
  | None => None
  end.

(** A call of the store. *)
Definition call {A : Type} (f : Storage -> Completion A * Storage) : Test A :=
  fun w => let (r, st) := f w.2 in Some (r, (w.1, st)).

(** [setItem] and [removeItem] with the handle and the item they mutate. *)
Definition callSetItem {collation : Collation} (table : LocalTableDef)
    (item : Item) : Test (LocalTableDef * Item) :=
  fun w =>
    let '(r, (table, item, st)) := setItem table item w.2 in
    Some (match r with
          | Return _ => Return (table, item)
          | Throw e => Throw e
          end, (w.1, st)).

Definition callRemoveItem (table : LocalTableDef) (id : option JsValue)
  : Test LocalTableDef :=
  fun w =>
    let '(r, (table, st)) := removeItem table id w.2 in
    Some (match r with
          | Return _ => Return table
          | Throw e => Throw e
          end, (w.1, st)).

(** The handle that [openTable] gave. *)
Definition asTable (d : Doc) : Test LocalTableDef :=
  fun w =>
    match d with
    | DTable table => Some (Return table, w)
    | DItem _ => None
    end.

(** [assert(test, msg)], with [test] as [ToBoolean] reads it. *)
Definition assert (test : bool) (msg : string) : Test unit :=
  fun w =>
    if test then Some (Return tt, w)
    else Some (Throw (MkError ("LocalStorage Test Failure: " +:+ msg)),
               (("LocalStorage Test Error"%string, msg) :: w.1, w.2)).

Definition throw {A : Type} (e : Error) : Test A := fun w => Some (Throw e, w).

(** What a failed assertion leaves: the alert and the error it throws. *)
Definition failed (msg : string) (w : list (string * string) * Storage)
  : option (Completion unit * (list (string * string) * Storage)) :=
  Some (Throw (MkError ("LocalStorage Test Failure: " +:+ msg)),
        (("LocalStorage Test Error"%string, msg) :: w.1, w.2)).

Section Validation.
Context {collation : Collation}.
(** [JSON.stringify] of the array of an index, for a message. *)
Context (JSON_stringify : list LocalIndexKey -> string).

(** The loop of [assertIndexOrder]; the lengths are equal when it runs. *)
Fixpoint assertEach (msg : string) (vs : list LocalIndexKey)
    (expected : list (option JsValue)) : Test unit :=
  match expected, vs with
  | [], _ => mret tt
  | v :: expected', e :: vs' =>
      _ ← assert (strictEq (key_value e) v) msg;
      assertEach msg vs' expected'
  | _ :: _, [] => throw TypeError
  end.

Definition assertIndexOrder (table : LocalTableDef) (indexName : string)
    (expected : list (option JsValue)) : Test unit :=
  let index := getIndex (indexes table) indexName in
  _ ← assert (bool_decide (is_Some index) || inheritedName indexName)
        ("couldn't find index named '" +:+ indexName +:+ "'.");
  match index with
  | None => assert false ("'" +:+ indexName +:+ "' index not initialized.")
  | Some index =>
      _ ← assert (bool_decide (is_Some (values index)))
            ("'" +:+ indexName +:+ "' index not initialized.");
      match values index with
      | None => throw TypeError
      | Some vs =>
          _ ← assert (Z.of_nat (length vs) =? Z.of_nat (length expected))
                ("'" +:+ indexName +:+ "' has an invalid length of "
                 +:+ Number_toString (Z.of_nat (length vs)));
          let indexData := JSON_stringify vs in
          assertEach ("'" +:+ indexName +:+ "' out of order: " +:+ indexData)
            vs expected
      end
  end.

(** The loop that saves an item nine times without an id. *)
Fixpoint autoIncrement (turns : nat) (i : Z) (table : LocalTableDef)
    (item : Item) : Test (LocalTableDef * Item) :=
  match turns with
  | O => mret (table, item)
  | S turns' =>
      '(table, item) ← callSetItem table (delete "id"%string item);
      _ ← assert (looseEq (item !! "id"%string) (Some (JStr (Number_toString i))))
            ("unexpected id of " +:+ ToString (item !! "id"%string)
             +:+ " assigned.");
      autoIncrement turns' (i + 1) table item
  end.

(** [results.items[0].name]. *)
Definition firstName (results : StorageResults) : Test (option JsValue) :=
  match items results with
  | Some (DItem item) :: _ => mret (item !! "name"%string)
  | Some (DTable table) :: _ => mret (Some (JStr (name table)))
  | _ => throw TypeError
  end.

(** The first part of [runTest]: a table without indexes. *)
Definition withoutIndexes : Test unit :=
  _ ← call (defineTable "test" None);
  table ← call (openTable "test");
  _ ← assert true "can't open table";
  table ← asTable table;
  item ← call (getItem table (Some (JStr "foo")));
  _ ← assert (negb (bool_decide (is_Some item)))
        "shouldn't have found missing item";
  let item : Item :=
    {[ "id"%string := JStr "foo"; "value"%string := JStr "bar" ]} in
  '(table, item) ← callSetItem table item;
  _ ← assert (looseEq (item !! "id"%string) (Some (JStr "foo")))
        "Item ID overwritten.";
  item ← call (getItem table (Some (JStr "foo")));
  _ ← assert (bool_decide (is_Some item)) "couldn't find saved item by id";
  table ← callRemoveItem table (Some (JStr "foo"));
  item ← call (getItem table (Some (JStr "foo")));
  _ ← assert (negb (bool_decide (is_Some item))) "failed to delete item";
  let item : Item :=
    {[ "id"%string := JStr "foo"; "value"%string := JStr "bar" ]} in
  _ ← autoIncrement 9 1 table item;
  mret tt.

(** The second part: a table with indexes, and pages. *)
Definition withIndexes : Test unit :=
  _ ← call (defineTable "test" (Some testIndexes));
  table ← call (openTable "test");
  _ ← assert true "couldn't open table with indexes.";
  table ← asTable table;
  _ ← assert (bool_decide (is_Some (getIndex (indexes table) "name")))
        "indexes weren't initialized for table.";
  '(table, _) ← callSetItem table (person "steve" 51 2 "dad");
  '(table, _) ← callSetItem table (person "annabelle" 4 0 "daughter");
  '(table, _) ← callSetItem table (person "donna" 48 1 "wife");
  _ ← assertIndexOrder table "name"
        [Some (JStr "annabelle"); Some (JStr "donna"); Some (JStr "steve")];
  _ ← assertIndexOrder table "age" [Some (JNum 4); Some (JNum 48); Some (JNum 51)];
  _ ← assertIndexOrder table "reports" [Some (JNum 2); Some (JNum 1); Some (JNum 0)];
  _ ← assertIndexOrder table "role"
        [Some (JStr "wife"); Some (JStr "daughter"); Some (JStr "dad")];
  results ← call (listItems table "name" None None);
  _ ← assert true "no results returned from listItems().";
  _ ← assert (negb (truthy (JStr <$> continuation results)))
        "unexpected continuation token returned by listItems().";
  _ ← assert (Z.of_nat (length (items results)) =? 3)
        ("only '" +:+ Number_toString (Z.of_nat (length (items results)))
         +:+ "' were returned from listItems().");
  first ← firstName results;
  _ ← assert (looseEq first (Some (JStr "annabelle")))
        "wrong index used by listItems().";
  results ← call (listItems table "name" (Some 2) None);
  _ ← assert (Z.of_nat (length (items results)) =? 2)
        ("'" +:+ Number_toString (Z.of_nat (length (items results)))
         +:+ "' items returned for first page of pagination results.");
  _ ← assert (truthy (JStr <$> continuation results))
        "continuation token missing for pagination test.";
  results ← call (listItems table "name" (Some 2) (continuation results));
  _ ← assert (Z.of_nat (length (items results)) =? 1)
        ("'" +:+ Number_toString (Z.of_nat (length (items results)))
         +:+ "' items returned for second page of pagination results.");
  _ ← assert (negb (truthy (JStr <$> continuation results)))
        "continuation token returned for second page of pagination test.";
  first ← firstName results;
  _ ← assert (looseEq first (Some (JStr "steve")))
        ("'" +:+ ToString first
         +:+ "' was returned as 1st item of second page of pagination results.");
  mret tt.

Definition runTest : Test unit :=
  _ ← call (deleteTable "test");
  _ ← withoutIndexes;
  _ ← call (deleteTable "test");
  _ ← withIndexes;
  call (deleteTable "test").
End Validation.

(** ** Notions used by the properties of the manager and of the tracking *)

(** The key holds the separator of an item key. *)
Fixpoint hasSeparator (k : string) : bool :=
  match k with
  | EmptyString => false
  | String c k' => Ascii.eqb c "|" || hasSeparator k'
  end.

(** Every item is stored under a key that holds the separator. *)
Definition itemsKeyed (d : gmap string Doc) : Prop :=
  forall k i, d !! k = Some (DItem i) -> hasSeparator k = true.

(** The indexes that [LocalStore.start] gives to the log. *)
Definition logIndex : list (string * LocalIndexDef) :=
  [("timestamp"%string, mkIndex (Some false) None None)].

(** A walk along a street, for the examples: a coordinate is a position in
    metres, a callback is known by a name. *)
Definition lineDistance (a b : Z) : Z := Z.abs (a - b).

Definition home : Item :=
  {[ "name"%string := JStr "Home"; "street"%string := JStr "1 Main St";
     "city"%string := JStr "Redmond"; "region"%string := JStr "wa" ]}.

Definition cafe : Item :=
  {[ "name"%string := JStr "Cafe"; "street"%string := JStr "9 Main St";
     "city"%string := JStr "Redmond"; "region"%string := JStr "wa" ]}.

Definition fixAt (position timestamp : Z) : @Location.LocationInfo Z :=
  Location.mkInfo position timestamp None.

(** The module once [start] was granted the permission, with the defaults. *)
Definition tracking : @Location.State Z string string :=
  (Location.start 4 1 "location" None "android"
     (Location.mkResponse "granted" None) Location.initial).2.

(** ... with a subscriber, ... *)
Definition watched : @Location.State Z string string :=
  (Location.subscribeToChanges "ui"%string tracking).2.

(** ... after a first fix at home, ... *)
Definition atHome : @Location.State Z string string :=
  (Location.TASK_HANDLER lineDistance (Some [fixAt 0 1000]) None (Some [home])
     watched).2.

(** ... and with two places in its cache. *)
Definition visited : @Location.State Z string string :=
  Location.setLocationCache
    [Location.mkInfo 0 1000 (Some home); Location.mkInfo 100 2000 (Some cafe)]
    tracking.

Definition defaultSettings : Item :=
  {[ "id"%string := JStr "settings"; "trackingEnabled"%string := JBool false;
     "units"%string := JStr "metric" ]}.

(** * Properties *)

(** ** The model on examples *)

Example parseInt_ex :
  parseInt "42" = Some 42 /\ parseInt "  -17px" = Some (-17) /\
  parseInt "0x1F" = Some 31 /\ parseInt "" = None /\ parseInt "abc" = None /\
  parseInt "12.9" = Some 12.
Proof. repeat split; reflexivity. Qed.

Example StringToNumber_ex :
  StringToNumber "42" = Some 42 /\ StringToNumber " 01 " = Some 1 /\
  StringToNumber "1.0" = Some 1 /\ StringToNumber "1e2" = Some 100 /\
  StringToNumber "0x10" = Some 16 /\ StringToNumber "" = Some 0 /\
  StringToNumber "1.5" = None /\ StringToNumber "12px" = None /\
  StringToNumber "-7" = Some (-7) /\ StringToNumber "." = None /\
  StringToNumber "foo" = None /\ StringToNumber "150e-1" = Some 15.
Proof. repeat split; vm_compute; reflexivity. Qed.

Example looseEq_ex :
  looseEq (Some (JNum 1)) (Some (JStr "1")) = true /\
  looseEq (Some (JNum 1)) (Some (JStr "01")) = true /\
  looseEq (Some (JStr "1")) (Some (JStr "01")) = false /\
  looseEq (Some (JStr "foo")) (Some (JNum 0)) = false /\
  looseEq None (Some JNull) = true.
Proof. repeat split; vm_compute; reflexivity. Qed.

Example Number_toString_ex :
  Number_toString 0 = "0"%string /\ Number_toString 120 = "120"%string /\
  Number_toString (-45) = "-45"%string.
Proof. repeat split; reflexivity. Qed.

Example runTest_open :
  (openTable "test" (defineTable "test" (Some testIndexes) (mkStorage ∅ [])).2).1
  = Return (DTable (mkTable "test" 1 testIndexes)).
Proof. vm_compute. reflexivity. Qed.

Example runTest_indexes :
  indexOrder testTable.1 "name"
    = [Some (JStr "annabelle"); Some (JStr "donna"); Some (JStr "steve")] /\
  indexOrder testTable.1 "age" = [Some (JNum 4); Some (JNum 48); Some (JNum 51)] /\
  indexOrder testTable.1 "reports" = [Some (JNum 2); Some (JNum 1); Some (JNum 0)] /\
  indexOrder testTable.1 "role"
    = [Some (JStr "wife"); Some (JStr "daughter"); Some (JStr "dad")] /\
  nextId testTable.1 = 4.
Proof. vm_compute. repeat split; reflexivity. Qed.

Example runTest_pages :
  let '(table, st) := testTable in
  let '(r1, st1) := listItems table "name" (Some 2) None st in
  match r1 with
  | Return p1 =>
      let '(r2, _) := listItems table "name" (Some 2) (continuation p1) st1 in
      length (items p1) = 2%nat /\ continuation p1 = Some "2"%string /\
      r2 = Return (mkResults
                     [Some (DItem (<["id"%string := JNum 1]> (person "steve" 51 2 "dad")))]
                     None)
  | Throw _ => False
  end.
Proof. vm_compute. repeat split; reflexivity. Qed.

(** The first steps of the validation routine: an item with a known id. *)
Example runTest_known_id :
  let st0 := (defineTable "test" None (mkStorage ∅ [])).2 in
  let table := mkTable "test" 1 [] in
  let foo : Item := {[ "id"%string := JStr "foo"; "value"%string := JStr "bar" ]} in
  let '(r, (table1, item1, st1)) := setItem table foo st0 in
  let '(_, (table2, st2)) := removeItem table1 (Some (JStr "foo")) st1 in
  (getItem table (Some (JStr "foo")) st0).1 = Return None /\
  r = Return tt /\ item1 = foo /\
  (getItem table1 (Some (JStr "foo")) st1).1 = Return (Some (DItem foo)) /\
  (getItem table2 (Some (JStr "foo")) st2).1 = Return None.
Proof. vm_compute. repeat split; reflexivity. Qed.

(** Removing the second row through the string form of its id, then the
    table. *)
Example runTest_remove :
  let '(table, st) := testTable in
  let '(_, (table', st')) := removeItem table (Some (JStr "2")) st in
  indexOrder table' "name" = [Some (JStr "donna"); Some (JStr "steve")] /\
  indexOrder table' "age" = [Some (JNum 48); Some (JNum 51)] /\
  disk st' !! "test|2"%string = None /\
  disk st' !! "test"%string = Some (DTable table') /\
  disk (deleteTable "test" st').2 = ∅.
Proof. vm_compute. repeat split; reflexivity. Qed.

(** ** Decimal strings: printing an integer and reading it back *)

Lemma radixDigit_decimal c :
  48 <= code c <= 57 -> radixDigit 10 c = Some (code c - 48).
Proof.
  intros H. unfold radixDigit, digitValue.
  replace ((48 <=? code c) && (code c <=? 57)) with true by lia.
  replace (code c - 48 <? 10) with true by lia. reflexivity.
Qed.

Lemma isDecimal_cons c s :
  isDecimal (String c s) = true <-> 48 <= code c <= 57 /\ isDecimal s = true.
Proof. simpl. rewrite !andb_true_iff. lia. Qed.

Lemma spanDigits_decimal s :
  isDecimal s = true -> spanDigits 10 s = (decDigits s, EmptyString).
Proof.
  induction s as [|c s IH]; [reflexivity|].
  intros [Hc Hs]%isDecimal_cons. simpl.
  rewrite (radixDigit_decimal c Hc), (IH Hs). reflexivity.
Qed.

Lemma decDigits_nil s : decDigits s = [] -> s = EmptyString.
Proof. destruct s; [reflexivity | discriminate]. Qed.

Lemma isWhiteSpace_digit c : 48 <= code c <= 57 -> isWhiteSpace c = false.
Proof. intros H. unfold isWhiteSpace. lia. Qed.

Lemma trimEnd_decimal s : isDecimal s = true -> trimEnd s = s.
Proof.
  induction s as [|c s IH]; [reflexivity|].
  intros [Hc Hs]%isDecimal_cons. simpl. rewrite (IH Hs).
  destruct s; [|reflexivity]. rewrite (isWhiteSpace_digit c Hc). reflexivity.
Qed.

Lemma stripPrefix_decimal s :
  isDecimal s = true -> stripPrefix s = (10, s).
Proof.
  destruct s as [|c [|x s]]; try reflexivity.
  intros [Hc [Hx _]%isDecimal_cons]%isDecimal_cons. unfold stripPrefix.
  replace ((code x =? 120) || (code x =? 88)) with false by lia.
  rewrite andb_false_r. reflexivity.
Qed.

Lemma parseInt_decimal s :
  isDecimal s = true -> s <> EmptyString -> parseInt s = Some (decValue s).
Proof.
  destruct s as [|c s]; [congruence|]. intros H _.
  pose proof H as [Hc Hs]%isDecimal_cons.
  unfold parseInt. cbn [trimStart]. rewrite (isWhiteSpace_digit c Hc).
  unfold stripSign.
  replace (code c =? 45) with false by lia.
  replace (code c =? 43) with false by lia.
  rewrite (stripPrefix_decimal _ H), (spanDigits_decimal _ H).
  cbn [decDigits]. unfold decValue. cbn [decDigits]. f_equal. lia.
Qed.

Lemma parseInt_minus_decimal s :
  isDecimal s = true -> s <> EmptyString ->
  parseInt (String "-" s) = Some (- decValue s).
Proof.
  intros H Hne. unfold parseInt. cbn [trimStart].
  change (isWhiteSpace "-") with false. cbv iota.
  unfold stripSign. change (code "-" =? 45) with true. cbv iota.
  rewrite (stripPrefix_decimal _ H), (spanDigits_decimal _ H).
  destruct s as [|c s]; [congruence|].
  cbn [decDigits]. unfold decValue. cbn [decDigits]. f_equal; lia.
Qed.

Lemma StrUnsignedDecimalLiteral_decimal s :
  isDecimal s = true -> s <> EmptyString ->
  StrUnsignedDecimalLiteral s = Some (decValue s).
Proof.
  intros H Hne. unfold StrUnsignedDecimalLiteral.
  assert (String.eqb s "Infinity" = false) as ->.
  { destruct s as [|c s]; [congruence|].
    apply isDecimal_cons in H as [Hc _]. apply String.eqb_neq.
    intros [= -> _]. change (48 <= 73 <= 57) in Hc. lia. }
  rewrite (spanDigits_decimal _ H), app_nil_r.
  destruct (decDigits s) as [|d ds] eqn:E.
  { apply decDigits_nil in E. congruence. }
  cbn [exponentPart length]. unfold scale, decValue. rewrite E.
  simpl (0 - Z.of_nat 0). cbv iota. simpl (0 <=? 0). cbv iota.
  f_equal. lia.
Qed.

Lemma StrDecimalLiteral_decimal s :
  isDecimal s = true -> s <> EmptyString ->
  StrDecimalLiteral s = Some (decValue s).
Proof.
  intros H Hne. destruct s as [|c s]; [congruence|].
  pose proof H as [Hc _]%isDecimal_cons. unfold StrDecimalLiteral.
  replace (code c =? 45) with false by lia.
  replace (code c =? 43) with false by lia.
  apply StrUnsignedDecimalLiteral_decimal; congruence.
Qed.

Lemma StrNumericLiteral_decimal s :
  isDecimal s = true -> s <> EmptyString ->
  StrNumericLiteral s = Some (decValue s).
Proof.
  intros H Hne. pose proof (StrDecimalLiteral_decimal s H Hne) as D.
  destruct s as [|c [|x r]]; try exact D. unfold StrNumericLiteral.
  pose proof H as [Hc [Hx _]%isDecimal_cons]%isDecimal_cons.
  replace ((code x =? 120) || (code x =? 88)) with false by lia.
  replace ((code x =? 111) || (code x =? 79)) with false by lia.
  replace ((code x =? 98) || (code x =? 66)) with false by lia.
  destruct (code c =? 48); exact D.
Qed.

Lemma StringToNumber_decimal s :
  isDecimal s = true -> s <> EmptyString ->
  StringToNumber s = Some (decValue s).
Proof.
  intros H Hne. unfold StringToNumber.
  assert (trimStart s = s) as ->.
  { destruct s as [|c s]; [congruence|].
    apply isDecimal_cons in H as [Hc _]. simpl.
    rewrite (isWhiteSpace_digit c Hc). reflexivity. }
  rewrite (trimEnd_decimal _ H).
  rewrite <- (StrNumericLiteral_decimal s H Hne).
  destruct s; [congruence | reflexivity].
Qed.

Lemma StringToNumber_minus_decimal s :
  isDecimal s = true -> s <> EmptyString ->
  StringToNumber (String "-" s) = Some (- decValue s).
Proof.
  intros H Hne. unfold StringToNumber. cbn [trimStart].
  change (isWhiteSpace "-") with false. cbv iota.
  cbn [trimEnd]. rewrite (trimEnd_decimal _ H).
  destruct s as [|c s]; [congruence|].
  unfold StrNumericLiteral. change (code "-" =? 48) with false. cbv iota.
  unfold StrDecimalLiteral. change (code "-" =? 45) with true. cbv iota.
  rewrite (StrUnsignedDecimalLiteral_decimal _ H Hne). reflexivity.
Qed.

(** What [Number_toString] prints. *)
Lemma isDecimal_uint d : isDecimal (NilEmpty.string_of_uint d) = true.
Proof. induction d; simpl; auto. Qed.

Lemma digits_uint_acc d acc :
  fold_left (fun a x => a * 10 + x)
    (decDigits (NilEmpty.string_of_uint d)) (Z.pos acc)
  = Z.pos (Pos.of_uint_acc d acc).
Proof.
  revert acc. induction d; intros acc; simpl; try reflexivity;
    match goal with
    | |- fold_left _ _ ?a = _ =>
        match goal with
        | |- _ = Z.pos (Pos.of_uint_acc _ ?p) =>
            replace a with (Z.pos p) by (unfold code; simpl; lia)
        end
    end; auto.
Qed.

Lemma decValue_uint d :
  decValue (NilEmpty.string_of_uint d) = Z.of_uint d.
Proof.
  unfold decValue, digitsValue, Z.of_uint.
  induction d; simpl; try reflexivity; try exact IHd;
    match goal with
    | |- fold_left _ _ ?a = Z.pos (Pos.of_uint_acc _ ?p) =>
        change a with (Z.pos p); apply digits_uint_acc
    end.
Qed.

Lemma string_of_uint_decimal d :
  let s := NilZero.string_of_uint d in
  isDecimal s = true /\ s <> EmptyString /\ decValue s = Z.of_uint d.
Proof.
  destruct d; simpl; repeat split; try discriminate;
    try apply isDecimal_uint;
    match goal with
    | |- decValue (String ?c (NilEmpty.string_of_uint ?d)) = Z.of_uint ?u =>
        apply (decValue_uint u)
    | _ => idtac
    end.
Qed.

Lemma Number_toString_shape n :
  exists s, isDecimal s = true /\ s <> EmptyString /\ decValue s = Z.abs n /\
            Number_toString n = if n <? 0 then String "-" s else s.
Proof.
  unfold Number_toString. destruct n as [|p|p].
  - exists "0"%string. repeat split; discriminate.
  - exists (NilZero.string_of_uint (Pos.to_uint p)).
    destruct (string_of_uint_decimal (Pos.to_uint p)) as (H1 & H2 & H3).
    repeat split; try assumption.
    rewrite H3. exact (DecimalZ.of_to (Z.pos p)).
  - exists (NilZero.string_of_uint (Pos.to_uint p)).
    destruct (string_of_uint_decimal (Pos.to_uint p)) as (H1 & H2 & H3).
    repeat split; try assumption.
    rewrite H3. exact (DecimalZ.of_to (Z.pos p)).
Qed.

Lemma parseInt_Number_toString n : parseInt (Number_toString n) = Some n.
Proof.
  destruct (Number_toString_shape n) as (s & H1 & H2 & H3 & ->).
  destruct (Z.ltb_spec n 0).
  - rewrite parseInt_minus_decimal by assumption. f_equal. lia.
  - rewrite parseInt_decimal by assumption. f_equal. lia.
Qed.

Lemma StringToNumber_Number_toString n :
  StringToNumber (Number_toString n) = Some n.
Proof.
  destruct (Number_toString_shape n) as (s & H1 & H2 & H3 & ->).
  destruct (Z.ltb_spec n 0).
  - rewrite StringToNumber_minus_decimal by assumption. f_equal. lia.
  - rewrite StringToNumber_decimal by assumption. f_equal. lia.
Qed.

Lemma Number_toString_inj n m :
  Number_toString n = Number_toString m -> n = m.
Proof.
  intros H. pose proof (parseInt_Number_toString n) as Hn.
  rewrite H, parseInt_Number_toString in Hn. congruence.
Qed.

Lemma Number_toString_nonempty n : String.eqb (Number_toString n) "" = false.
Proof.
  destruct (Number_toString_shape n) as (s & H1 & H2 & H3 & ->).
  destruct (n <? 0); [reflexivity|]. destruct s; [congruence | reflexivity].
Qed.

(** ** Keys *)

Lemma itemKey_inj tableName a b :
  itemKey tableName a = itemKey tableName b -> ToString a = ToString b.
Proof.
  unfold itemKey. intros H.
  apply (String.app_inj tableName) in H.
  exact (String.app_inj "|" _ _ H).
Qed.

Lemma string_length_app (s t : string) :
  String.length (s +:+ t) = (String.length s + String.length t)%nat.
Proof. induction s; simpl; auto. Qed.

Lemma itemKey_ne_name tableName id : itemKey tableName id <> tableName.
Proof.
  unfold itemKey. intros H. apply (f_equal String.length) in H.
  rewrite !string_length_app in H. simpl in H. lia.
Qed.

Lemma startsWith_app k p : startsWith k p = true <-> exists r, k = p +:+ r.
Proof.
  revert k. induction p as [|a p IH]; intros k; simpl.
  - split; [eauto | reflexivity].
  - destruct k as [|b k].
    + split; [discriminate | intros [r [=]]].
    + rewrite andb_true_iff, IH. split.
      * intros [->%Ascii.eqb_eq [r ->]]. eauto.
      * intros [r [= -> ->]]. rewrite Ascii.eqb_refl. eauto.
Qed.

Lemma string_app_assoc (s t r : string) : (s +:+ t) +:+ r = s +:+ t +:+ r.
Proof.
  induction s as [|a s IH]; [reflexivity|].
  change (String a ((s +:+ t) +:+ r) = String a (s +:+ t +:+ r)).
  rewrite IH. reflexivity.
Qed.

(** A key of the table: its definition, or one prefixed by [name|]. *)
Lemma isTableKey_spec tableName k :
  isTableKey tableName k = true <->
  k = tableName \/ exists r, k = tableName +:+ "|" +:+ r.
Proof.
  unfold isTableKey. rewrite orb_true_iff, String.eqb_eq, startsWith_app.
  split; (intros [H|[r H]]; [left | right; exists r]); try assumption.
  - rewrite H. apply string_app_assoc.
  - rewrite H. symmetry. apply string_app_assoc.
Qed.

(** ** Table lifecycle: [defineTable] and [openTable] *)

Lemma getIndex_None ixs indexName :
  getIndex ixs indexName = None <-> indexName ∉ map fst ixs.
Proof.
  induction ixs as [|[f ix] ixs IH]; simpl.
  - split; [intros _ H; inversion H | reflexivity].
  - rewrite not_elem_of_cons. destruct (String.eqb_spec f indexName) as [->|Hne].
    + split; [discriminate | intros [H _]; congruence].
    + rewrite IH. split; [intros H; split; [congruence | exact H] | intros [_ H]; exact H].
Qed.


(** C6, amended. [openTable] throws its not-found error exactly when
    nothing is stored under [name], after a single read and without
    touching the stored data; whatever document is stored there comes back,
    an item as well as a table definition. [listItems] throws its not-found
    error exactly when [indexName] is neither an index of the table nor a
    name that every object inherits; for an inherited name that is no index
    it returns an empty page. Either way it makes no call to the storage
    for a name that is no index. Neither function tries again. *)
Theorem notFound_exactly (name : string) (st : Storage)
    (table : LocalTableDef) (indexName : string) (count : option Z)
    (continuation : option string) :
  ((openTable name st).1 = Throw (tableNotFound name) <->
     disk st !! name = None) /\
  (forall d, disk st !! name = Some d -> (openTable name st).1 = Return d) /\
  (openTable name st).2 = mkStorage (disk st) (CGetItem name :: calls st) /\
  ((listItems table indexName count continuation st).1
     = Throw (indexNotFound indexName) <->
     (indexName ∉ map fst (indexes table)) /\ inheritedName indexName = false) /\
  (indexName ∉ map fst (indexes table) ->
     (listItems table indexName count continuation st).2 = st /\
     (inheritedName indexName = true ->
      (listItems table indexName count continuation st).1
        = Return (mkResults [] None))).
Proof.
  split; [|split; [|split; [|split]]].
  - unfold openTable, AsyncStorage_getItem. simpl.
    destruct (disk st !! name); split; (discriminate || reflexivity).
  - unfold openTable, AsyncStorage_getItem. simpl. intros d ->. reflexivity.
  - unfold openTable, AsyncStorage_getItem. simpl.
    destruct (disk st !! name); reflexivity.
  - rewrite <- getIndex_None. unfold listItems.
    destruct (getIndex (indexes table) indexName) as [index|].
    + split; [|intros [[=] _]].
      destruct (values index) as [vs|]; [|discriminate].
      destruct (startIndexOf continuation) as [start|]; [|discriminate].
      destruct (start <? Z.of_nat (length vs)); [|discriminate].
      destruct (collectKeys _ _ _ _ _) as [[keys i]|e] eqn:E; [discriminate|].
      simpl. intros [= ->]. exfalso. revert E. generalize (@nil string).
      generalize (Z.to_nat (default 10 count)). intros n. revert start.
      induction n as [|n IH]; intros start keys; simpl; [discriminate|].
      destruct (start <? Z.of_nat (length vs)); [|discriminate].
      destruct (at_index vs start); [apply IH | discriminate].
    + destruct (inheritedName indexName); simpl.
      * split; [discriminate | intros [_ [=]]].
      * split; [auto | reflexivity].
  - rewrite <- getIndex_None. unfold listItems. intros ->.
    destruct (inheritedName indexName); simpl; split; auto; discriminate.
Qed.

(** C6 as stated fails: [constructor] is no index of the table, yet
    [listItems] returns an empty page for it; and [openTable] hands back an
    item that is stored under the name it is given, where no table
    definition is stored. *)
Lemma notFound_exactly_counterexample :
  let table := mkTable "test" 1 testIndexes in
  let item := <["id"%string := JNum 1]> (person "steve" 51 2 "dad") in
  let st := mkStorage {[ "test|1"%string := DItem item ]} [] in
  ("constructor"%string ∉ map fst (indexes table)) /\
  listItems table "constructor" None None st
    = (Return (mkResults [] None), st) /\
  (openTable "test|1" st).1 = Return (DItem item).
Proof.
  cbv zeta. split; [|split].
  - apply getIndex_None. reflexivity.
  - reflexivity.
  - reflexivity.
Qed.


(** ** Deleting: [removeItem] and [deleteTable] *)

Lemma lookup_multiRemove (ks : list string) (m : gmap string Doc) (k : string) :
  fold_left (fun m k => delete k m) ks m !! k
  = if decide (k ∈ ks) then None else m !! k.
Proof.
  revert m. induction ks as [|k' ks IH]; intros m; simpl.
  - destruct (decide (k ∈ [])) as [H|_]; [inversion H | reflexivity].
  - rewrite IH. destruct (decide (k ∈ ks)) as [H|H].
    + rewrite decide_True by (right; exact H). reflexivity.
    + destruct (decide (k = k')) as [->|Hne].
      * rewrite decide_True by left. apply lookup_delete_eq.
      * rewrite decide_False by (rewrite elem_of_cons; tauto).
        apply lookup_delete_ne. congruence.
Qed.

Lemma removeFromIndexes_map ixs id modified :
  (removeFromIndexes ixs id modified).1
  = map (fun fi => (fi.1, withoutId id fi.2)) ixs.
Proof.
  revert modified. induction ixs as [|[f ix] ixs IH]; intros modified; simpl.
  - reflexivity.
  - unfold withoutId at 1.
    destruct (values ix) as [vs|]; [destruct (spliceMatch vs id) as [vs' found]|];
      simpl; specialize (IH (modified || found) ) || specialize (IH (modified || false));
      destruct (removeFromIndexes ixs id _); simpl in *; congruence.
Qed.

Lemma spliceMatch_unmodified vs id :
  (spliceMatch vs id).2 = false -> (spliceMatch vs id).1 = vs.
Proof.
  induction vs as [|e vs IH]; simpl; [reflexivity|].
  destruct (looseEq (key_id e) id); [discriminate|].
  destruct (spliceMatch vs id) as [vs' found]. simpl in *.
  intros H. rewrite (IH H). reflexivity.
Qed.

Lemma removeFromIndexes_unmodified ixs id modified :
  (removeFromIndexes ixs id modified).2 = false ->
  modified = false /\ (removeFromIndexes ixs id modified).1 = ixs.
Proof.
  revert modified. induction ixs as [|[f ix] ixs IH]; intros modified; simpl.
  - auto.
  - destruct ix as [asc num [vs|]]; simpl.
    + pose proof (spliceMatch_unmodified vs id) as Hs.
      destruct (spliceMatch vs id) as [vs' found]. simpl in Hs.
      specialize (IH (modified || found)).
      destruct (removeFromIndexes ixs id (modified || found)) as [r m].
      simpl in *. intros H. destruct (IH H) as [Hm ->].
      apply orb_false_elim in Hm as [-> ->]. rewrite (Hs eq_refl). auto.
    + specialize (IH (modified || false)).
      destruct (removeFromIndexes ixs id (modified || false)) as [r m].
      simpl in *. intros H. destruct (IH H) as [Hm ->].
      apply orb_false_elim in Hm as [-> _]. auto.
Qed.


(** ** Listing *)

Lemma startIndexOf_Number_toString n :
  startIndexOf (Some (Number_toString n)) = Some n.
Proof.
  unfold startIndexOf. rewrite Number_toString_nonempty.
  apply parseInt_Number_toString.
Qed.




(** C9. With a count of 0 or less and a start offset below the length of
    the index, [listItems] returns no item and a continuation that is that
    same offset; read back, the token gives the same offset again, so a
    caller that follows the continuations never comes to an end. *)
Theorem listItems_stalls (table : LocalTableDef) (indexName : string)
    (index : LocalIndexDef) (vs : list LocalIndexKey) (count : Z)
    (token : option string) (start : Z) (st : Storage) :
  getIndex (indexes table) indexName = Some index ->
  values index = Some vs ->
  count <= 0 ->
  startIndexOf token = Some start ->
  start < Z.of_nat (length vs) ->
  listItems table indexName (Some count) token st
    = (Return (mkResults [] (Some (Number_toString start))),
       mkStorage (disk st) (CMultiGet [] :: calls st)) /\
  startIndexOf (Some (Number_toString start)) = Some start /\
  forall fuel, listPages fuel table indexName (Some count) token st = None.
Proof.
  intros Hix Hvs Hcount Hstart Hlt.
  assert (Hcall : forall token st,
    startIndexOf token = Some start ->
    listItems table indexName (Some count) token st
    = (Return (mkResults [] (Some (Number_toString start))),
       mkStorage (disk st) (CMultiGet [] :: calls st))).
  { intros token' st' Htok. unfold listItems.
    rewrite Hix, Hvs, Htok. change (default 10 (Some count)) with count.
    replace (start <? Z.of_nat (length vs)) with true by lia. cbv iota.
    replace (Z.to_nat count) with O by lia. cbn [collectKeys].
    unfold AsyncStorage_multiGet. cbn [map].
    replace (start <? Z.of_nat (length vs)) with true by lia. reflexivity. }
  split; [apply Hcall; exact Hstart|].
  split; [apply startIndexOf_Number_toString|].
  intros fuel. revert token st Hstart.
  induction fuel as [|fuel IH]; intros token st Hstart; [reflexivity|].
  cbn [listPages]. rewrite (Hcall _ _ Hstart). cbn [continuation].
  rewrite IH; [reflexivity|]. apply startIndexOf_Number_toString.
Qed.

Lemma listItems_stalls_witness :
  listItems testTable.1 "name" (Some 0) None testTable.2
    = (Return (mkResults [] (Some "0"%string)),
       mkStorage (disk testTable.2) (CMultiGet [] :: calls testTable.2)) /\
  startIndexOf (Some (Number_toString 0)) = Some 0 /\
  forall fuel, listPages fuel testTable.1 "name" (Some 0) None testTable.2 = None.
Proof.
  set (vs := [mkKey (Some (JNum 2)) (Some (JStr "annabelle"));
              mkKey (Some (JNum 3)) (Some (JStr "donna"));
              mkKey (Some (JNum 1)) (Some (JStr "steve"))]).
  apply (listItems_stalls testTable.1 "name"
           (mkIndex (Some true) None (Some vs)) vs 0 None 0 testTable.2).
  - vm_compute. reflexivity.
  - reflexivity.
  - lia.
  - reflexivity.
  - simpl. lia.
Defined.





(** ** The sort gives a sorted permutation *)

Section Array_sort_correct.
Context {A : Type} (comparefn : A -> A -> Completion Z).
Context (c : A -> A -> Z) (P : A -> Prop) (R : A -> A -> Prop).
Hypothesis comparefn_returns :
  forall x y, P x -> P y -> comparefn x y = Return (c x y).
Hypothesis c_le : forall x y, P x -> P y -> c x y <= 0 -> R x y.
Hypothesis c_gt : forall x y, P x -> P y -> 0 < c x y -> R y x.
Hypothesis R_trans : forall x y z, R x y -> R y z -> R x z.

Lemma insertSorted_correct x l :
  P x -> Forall P l -> StronglySorted R l ->
  exists r, insertSorted comparefn x l = Return r /\
            Permutation (x :: l) r /\ StronglySorted R r.
Proof.
  intros Hx. induction l as [|y l IH]; intros Hl Hs.
  - exists [x]. split; [reflexivity|]. split; [reflexivity|].
    repeat constructor.
  - apply Forall_cons in Hl as [Hy Hl].
    apply StronglySorted_inv in Hs as [Hs Hyl].
    cbn [insertSorted]. rewrite (comparefn_returns x y Hx Hy).
    cbn [mbind Completion_bind].
    destruct (Z.leb_spec (c x y) 0) as [Hle|Hgt].
    + exists (x :: y :: l). split; [reflexivity|]. split; [reflexivity|].
      constructor; [constructor; assumption|].
      constructor; [eauto|].
      eapply Forall_impl; [exact Hyl|]. intros z Hz. simpl in Hz.
      apply (R_trans x y z); auto.
    + destruct (IH Hl Hs) as (r & -> & Hperm & Hsr).
      exists (y :: r). split; [reflexivity|]. split.
      * rewrite perm_swap. constructor. exact Hperm.
      * constructor; [exact Hsr|].
        eapply Permutation_Forall; [exact Hperm|].
        constructor; [eauto | exact Hyl].
Qed.

Lemma Array_sort_correct l :
  Forall P l ->
  exists r, Array_sort comparefn l = Return r /\
            Permutation l r /\ StronglySorted R r.
Proof.
  induction l as [|x l IH]; intros Hl.
  - exists []. split; [reflexivity|]. split; [reflexivity | constructor].
  - apply Forall_cons in Hl as [Hx Hl].
    destruct (IH Hl) as (s & Hsort & Hperm & Hs).
    cbn [Array_sort]. rewrite Hsort. cbn [mbind Completion_bind].
    destruct (insertSorted_correct x s Hx) as (r & Hr & Hperm' & Hsr);
      [eapply Permutation_Forall; eassumption | exact Hs |].
    exists r. split; [exact Hr|]. split; [|exact Hsr].
    rewrite <- Hperm'. constructor. exact Hperm.
Qed.
End Array_sort_correct.

(** ** Ids under loose equality *)

Lemma looseEq_canonical a b :
  canonicalId a = true -> canonicalId b = true ->
  (looseEq a b = true <-> ToString a = ToString b).
Proof.
  assert (Hns : forall n s, canonicalId (Some (JStr s)) = true ->
            (numEq (StringToNumber s) (Some n) = true <-> Number_toString n = s)).
  { intros n s Hs. simpl in Hs. split.
    - destruct (StringToNumber s) as [m|]; [|discriminate]. simpl.
      intros ->%Z.eqb_eq. apply andb_true_iff in Hs as [Hs _].
      apply String.eqb_eq in Hs. congruence.
    - intros <-. rewrite StringToNumber_Number_toString. simpl. lia. }
  destruct a as [[| |n|s]|], b as [[| |m|t]|]; try discriminate; intros Ha Hb; simpl.
  - rewrite Z.eqb_eq. split; [congruence | apply Number_toString_inj].
  - apply Hns. exact Hb.
  - rewrite (Hns _ _ Ha). split; congruence.
  - apply String.eqb_eq.
Qed.

(** ** The index invariant *)

Section Invariant.
Context {collation : Collation}.

Lemma inOrder_trans numerical ascending a b c :
  inOrder numerical ascending a b -> inOrder numerical ascending b c ->
  inOrder numerical ascending a c.
Proof.
  unfold inOrder.
  destruct (key_value a) as [[| |x|s]|], (key_value b) as [[| |y|t]|],
    (key_value c) as [[| |z|u]|]; try tauto; intros [H1 H2] [H3 H4];
    (split; [assumption|]); try congruence; destruct ascending; try lia.
  - eapply localeCompare_trans; eauto.
  - eapply localeCompare_trans; eauto.
Qed.

Lemma sort_index numerical ascending vs :
  Forall (fun e => valueFits numerical (key_value e) = true) vs ->
  exists r, Array_sort (comparefn numerical ascending) vs = Return r /\
            Permutation vs r /\
            StronglySorted (inOrder numerical ascending) r.
Proof.
  apply (Array_sort_correct (comparefn numerical ascending)
           (fun x y => match comparefn numerical ascending x y with
                       | Return z => z
                       | Throw _ => 0
                       end)).
  - intros x y Hx Hy. unfold comparefn, String_localeCompare.
    destruct numerical, ascending; try reflexivity;
      destruct (key_value x) as [[| |n|s]|], (key_value y) as [[| |m|t]|];
      try discriminate; reflexivity.
  - intros x y Hx Hy. unfold comparefn, String_localeCompare, inOrder, minus.
    destruct numerical, ascending;
      destruct (key_value x) as [[| |n|s]|], (key_value y) as [[| |m|t]|];
      try discriminate; simpl; intros H; split; try reflexivity; try lia;
      exact H.
  - intros x y Hx Hy. unfold comparefn, String_localeCompare, inOrder, minus.
    destruct numerical, ascending;
      destruct (key_value x) as [[| |n|s]|], (key_value y) as [[| |m|t]|];
      try discriminate; simpl; intros H; split; try reflexivity; try lia.
    + destruct (localeCompare_total s t); [lia | assumption].
    + destruct (localeCompare_total s t); [assumption | lia].
  - apply inOrder_trans.
Qed.
















End Invariant.

(** ** What [removeItem] leaves of the indexes *)

Lemma filter_all {A} (P : A -> Prop) `{forall x, Decision (P x)} (l : list A) :
  Forall P l -> filter P l = l.
Proof.
  induction 1 as [|x l Hx _ IH]; [reflexivity|].
  rewrite filter_cons, decide_True by exact Hx. f_equal. exact IH.
Qed.

(** Among canonical ids that differ as strings, the splice takes out the
    entry of the id and no other. *)
Lemma spliceMatch_idString vs id :
  Forall (fun e => canonicalId (key_id e) = true) vs ->
  NoDup (idString <$> vs) ->
  canonicalId id = true ->
  (spliceMatch vs id).1 = filter (fun e => idString e <> ToString id) vs.
Proof.
  intros Hids Hnd Hid. induction vs as [|e vs IH]; [reflexivity|].
  apply Forall_cons in Hids as [He Hids]. cbn [fmap list_fmap] in Hnd.
  apply NoDup_cons in Hnd as [Hne Hnd]. cbn [spliceMatch].
  rewrite filter_cons. destruct (looseEq (key_id e) id) eqn:E.
  - apply (looseEq_canonical _ _ He Hid) in E. fold (idString e) in E.
    rewrite decide_False by (intros H; apply H; exact E). cbn [fst].
    symmetry. apply filter_all. apply Forall_forall. intros x Hx Heq.
    apply Hne. rewrite E, <- Heq. apply list_elem_of_fmap. eauto.
  - rewrite decide_True.
    + specialize (IH Hids Hnd). destruct (spliceMatch vs id) as [vs' found].
      cbn [fst] in *. f_equal. exact IH.
    + intros Heq. apply (looseEq_canonical _ _ He Hid) in Heq. congruence.
Qed.

(** C5, amended. [removeItem] returns, deletes the key [name|id], leaves
    the keys of the other items alone and writes the table definition back
    when an index changed. When [id] and the ids in the indexes are
    canonical (a safe integer, the decimal form of one, or a string that
    does not read as a number) and no index holds two entries for one id,
    every index is left with its entries for the other ids, in their order,
    and with none for [id]. [deleteTable] removes the key [name] and every
    key that starts with [name|], leaves the other keys alone, and issues no
    removal when there is no such key. *)
Theorem deletion_cascade (table : LocalTableDef) (id : option JsValue)
    (tableName : string) (st : Storage) :
  (let '(r, (table', st')) := removeItem table id st in
   r = Return tt /\
   disk st' !! itemKey (name table) id = None /\
   (forall k, k <> itemKey (name table) id -> k <> name table ->
              disk st' !! k = disk st !! k) /\
   (disk st' !! name table = Some (DTable table') \/
    table' = table /\ disk st' !! name table = disk st !! name table) /\
   (canonicalId id = true ->
    (forall field index, (field, index) ∈ indexes table ->
       Forall (fun e => canonicalId (key_id e) = true) (entries index) /\
       NoDup (idString <$> entries index)) ->
    table' = mkTable (name table) (nextId table)
               (map (fun fi =>
                       (fi.1,
                        mkIndex (ascending fi.2) (numerical fi.2)
                          (filter (fun e => idString e <> ToString id)
                             <$> values fi.2)))
                  (indexes table)))) /\
  (let st' := (deleteTable tableName st).2 in
   (deleteTable tableName st).1 = Return tt /\
   (forall k, k = tableName \/ (exists r, k = tableName +:+ "|" +:+ r) ->
              disk st' !! k = None) /\
   (forall k, ~ (k = tableName \/ exists r, k = tableName +:+ "|" +:+ r) ->
              disk st' !! k = disk st !! k) /\
   ((forall k, k = tableName \/ (exists r, k = tableName +:+ "|" +:+ r) ->
               disk st !! k = None) ->
    st' = mkStorage (disk st) (CGetAllKeys :: calls st))).
Proof.
  split.
  - unfold removeItem.
    pose proof (removeFromIndexes_map (indexes table) id false) as Hmap.
    pose proof (removeFromIndexes_unmodified (indexes table) id false) as Hun.
    destruct (removeFromIndexes (indexes table) id false) as [ixs modified].
    simpl in Hmap, Hun. subst ixs. cbn [name setIndexes].
    assert (Hk : itemKey (name table) id <> name table) by apply itemKey_ne_name.
    repeat split.
    + simpl. apply lookup_delete_eq.
    + intros k H1 H2. simpl. rewrite lookup_delete_ne by congruence.
      destruct modified; simpl; [rewrite lookup_insert_ne by congruence|]; reflexivity.
    + simpl. rewrite lookup_delete_ne by exact Hk.
      destruct modified; simpl.
      * left. apply lookup_insert_eq.
      * right. destruct (Hun eq_refl) as [_ ->]. destruct table; auto.
    + intros Hid Hall. unfold setIndexes. f_equal.
      apply map_ext_in. intros [f ix] Hin%list_elem_of_In. simpl. f_equal.
      destruct (Hall f ix Hin) as [Hids Hnd]. unfold entries in Hids, Hnd.
      unfold withoutId. destruct (values ix) as [vs|] eqn:E.
      * unfold setValues. cbn [default] in Hids, Hnd.
        rewrite (spliceMatch_idString vs id Hids Hnd Hid). reflexivity.
      * destruct ix; simpl in *; congruence.
  - assert (Hd : forall k,
      disk (deleteTable tableName st).2 !! k
      = if isTableKey tableName k then None else disk st !! k).
    { intros k. unfold deleteTable, AsyncStorage_getAllKeys, AsyncStorage_multiRemove.
      set (tableKeys := filter _ _).
      assert (Hl : fold_left (fun m k => delete k m) tableKeys (disk st) !! k
                   = if isTableKey tableName k then None else disk st !! k).
      { rewrite lookup_multiRemove. unfold tableKeys.
        destruct (decide (k ∈ _)) as [Hin|Hnin].
        - apply list_elem_of_filter in Hin as [-> _]. reflexivity.
        - destruct (isTableKey tableName k) eqn:Ek; [|reflexivity].
          destruct (disk st !! k) as [d|] eqn:Ed; [|reflexivity].
          exfalso. apply Hnin. apply list_elem_of_filter. split; [exact Ek|].
          apply list_elem_of_In, in_map_iff. exists (k, d). split; [reflexivity|].
          apply list_elem_of_In, elem_of_map_to_list. exact Ed. }
      destruct tableKeys; simpl in *; exact Hl. }
    cbv zeta. repeat split.
    + unfold deleteTable, AsyncStorage_getAllKeys.
      destruct (0 <? _); reflexivity.
    + intros k Hk%isTableKey_spec. rewrite Hd, Hk. reflexivity.
    + intros k Hk. rewrite Hd.
      destruct (isTableKey tableName k) eqn:E; [|reflexivity].
      apply isTableKey_spec in E. contradiction.
    + intros Hnone. unfold deleteTable, AsyncStorage_getAllKeys.
      set (tableKeys := filter _ _).
      destruct tableKeys as [|k ks] eqn:E; [reflexivity|]. exfalso.
      assert (Hin : k ∈ tableKeys) by (rewrite E; left).
      apply list_elem_of_filter in Hin as [Hk Hin].
      apply list_elem_of_In, in_map_iff in Hin as ([k' d] & <- & Hin).
      apply list_elem_of_In, elem_of_map_to_list in Hin. simpl in Hk.
      apply isTableKey_spec in Hk. rewrite (Hnone _ Hk) in Hin. discriminate.
Qed.

(** Taking the item 2 out of the three of [testTable]. *)
Lemma deletion_cascade_witness :
  (removeItem testTable.1 (Some (JStr "2")) testTable.2).2.1
  = mkTable "test" 4
      (map (fun fi =>
              (fi.1,
               mkIndex (ascending fi.2) (numerical fi.2)
                 (filter (fun e => idString e <> "2"%string) <$> values fi.2)))
         (indexes testTable.1)).
Proof.
  pose proof (deletion_cascade testTable.1 (Some (JStr "2")) "test"
                testTable.2) as [H _].
  destruct (removeItem testTable.1 (Some (JStr "2")) testTable.2)
    as [r [table' st']].
  destruct H as (_ & _ & _ & _ & H). cbn [fst snd]. rewrite H.
  - reflexivity.
  - reflexivity.
  - intros field index Hin. vm_compute in Hin.
    repeat (apply elem_of_cons in Hin as [Hin|Hin]);
      try (injection Hin as -> ->); [..|inversion Hin].
    all: split; [repeat constructor|].
    all: vm_compute; apply (bool_decide_unpack _); vm_compute; reflexivity.
Defined.

(** C5 as stated fails: with the items "01" and "1" stored,
    [removeItem] with the number 1 deletes the key [test|1] and splices the
    first entry that is loosely equal to 1, the one of "01": the entry of
    "1" stays in the index without an item, and the item "01" stays stored
    without an entry. *)
Lemma deletion_cascade_counterexample :
  let table0 := mkTable "test" 1 [("name"%string, mkIndex (Some true) None None)] in
  let a : Item := {[ "id"%string := JStr "01"; "name"%string := JStr "a" ]} in
  let b : Item := {[ "id"%string := JStr "1"; "name"%string := JStr "b" ]} in
  let '(_, (table1, _, st1)) := setItem table0 a (mkStorage ∅ []) in
  let '(_, (table2, _, st2)) := setItem table1 b st1 in
  let '(r, (table3, st3)) := removeItem table2 (Some (JNum 1)) st2 in
  indexes table2
    = [("name"%string,
        mkIndex (Some true) None
          (Some [mkKey (Some (JStr "01")) (Some (JStr "a"));
                 mkKey (Some (JStr "1")) (Some (JStr "b"))]))] /\
  r = Return tt /\
  disk st2 !! "test|1"%string = Some (DItem b) /\
  disk st3 !! "test|1"%string = None /\
  disk st3 !! "test|01"%string = Some (DItem a) /\
  indexes table3
    = [("name"%string,
        mkIndex (Some true) None
          (Some [mkKey (Some (JStr "1")) (Some (JStr "b"))]))].
Proof. vm_compute. repeat split; reflexivity. Qed.


(** ** Sequences of calls *)








(** ** What one [setItem] does *)

Lemma updateIndexes_names {collation : Collation} ixs item modified :
  fst <$> (updateIndexes ixs item modified).2 = fst <$> ixs.
Proof.
  revert modified. induction ixs as [|[f ix] ixs IH]; intros modified;
    [reflexivity|]. cbn [updateIndexes].
  destruct (updateIndex f ix item) as [[changed|e] ix']; [|reflexivity].
  specialize (IH (modified || changed)).
  destruct (updateIndexes ixs item (modified || changed)) as [r ixs'].
  cbn in *. f_equal. exact IH.
Qed.

(** The id the item leaves with, the counter, and what is written. *)
Lemma setItem_effect {collation : Collation} table item st :
  let '(r, (table', item', st')) := setItem table item st in
  let auto := negb (truthy (item !! "id"%string)) in
  item' = (if auto then <["id"%string := JNum (nextId table)]> item else item) /\
  name table' = name table /\
  nextId table' = (if auto then nextId table + 1 else nextId table) /\
  fst <$> indexes table' = fst <$> indexes table /\
  match r with
  | Return _ =>
      disk st' !! itemKey (name table) (item' !! "id"%string)
        = Some (DItem item') /\
      (auto = true -> disk st' !! name table = Some (DTable table')) /\
      (forall k, k <> itemKey (name table) (item' !! "id"%string) ->
                 k <> name table -> disk st' !! k = disk st !! k)
  | Throw _ => st' = st
  end.
Proof.
  unfold setItem, updateTableIndexes.
  destruct (truthy (item !! "id"%string)); cbn [negb];
    match goal with
    | |- context [updateIndexes ?ixs ?it false] =>
        pose proof (updateIndexes_names ixs it false) as Hnames;
        destruct (updateIndexes ixs it false) as [[modified|e] ixs']
    end; cbn [setIndexes name nextId indexes snd] in *;
    (split; [reflexivity|]); (split; [reflexivity|]); (split; [reflexivity|]);
    (split; [exact Hnames|]); try reflexivity;
    unfold AsyncStorage_multiSet; cbn [disk];
    (split; [|split]).
  - destruct modified; cbn [orb fold_left fst snd].
    + rewrite lookup_insert_ne by (apply not_eq_sym, itemKey_ne_name).
      apply lookup_insert_eq.
    + apply lookup_insert_eq.
  - discriminate.
  - intros k H1 H2. destruct modified; cbn [orb fold_left fst snd];
      rewrite ?lookup_insert_ne by congruence; reflexivity.
  - cbn [orb fold_left fst snd].
    rewrite lookup_insert_ne by (apply not_eq_sym, itemKey_ne_name).
    apply lookup_insert_eq.
  - intros _. cbn [orb fold_left fst snd]. apply lookup_insert_eq.
  - intros k H1 H2. cbn [orb fold_left fst snd].
    rewrite !lookup_insert_ne by congruence. reflexivity.
Qed.

Lemma setItems_auto {collation : Collation} table its st :
  Forall (fun item => truthy (item !! "id"%string) = false) its ->
  let '(rs, (table', st')) := setItems table its st in
  name table' = name table /\
  nextId table' = nextId table + Z.of_nat (length its) /\
  (forall k item, its !! k = Some item ->
     snd <$> rs !! k
       = Some (<["id"%string := JNum (nextId table + Z.of_nat k)]> item)) /\
  (forall item', last rs = Some (Return tt, item') ->
     disk st' !! name table = Some (DTable table')).
Proof.
  revert table st. induction its as [|item its IH]; intros table st Hits.
  - cbn. split; [reflexivity|]. split; [lia|]. split; [|discriminate].
    intros k item Hk. destruct k; discriminate.
  - apply Forall_cons in Hits as [Hitem Hits]. cbn [setItems].
    pose proof (setItem_effect table item st) as Heff.
    destruct (setItem table item st) as [r [[table1 item1] st1]].
    rewrite Hitem in Heff. cbn [negb] in Heff.
    destruct Heff as (Hitem1 & Hname1 & Hnext1 & _ & Hr).
    specialize (IH table1 st1 Hits).
    destruct (setItems table1 its st1) as [rs [table' st']] eqn:E.
    destruct IH as (Hname & Hnext & Hids & Hlast).
    split; [congruence|]. split; [cbn [length]; lia|]. split.
    + intros [|k] it Hk.
      * injection Hk as <-. cbn. rewrite Hitem1, Z.add_0_r. reflexivity.
      * change (snd <$> rs !! k
                = Some (<["id"%string := JNum (nextId table + Z.of_nat (S k))]> it)).
        change (its !! k = Some it) in Hk.
        rewrite (Hids k it Hk). do 3 f_equal. lia.
    + intros item' Hl. destruct rs as [|x rs].
      * cbn in Hl. injection Hl as -> ->.
        destruct its as [|i its'].
        -- cbn in E. injection E as <- <-.
           destruct Hr as (_ & Hsaved & _). exact (Hsaved eq_refl).
        -- cbn [setItems] in E.
           destruct (setItem table1 i st1) as [? [[? ?] ?]].
           destruct (setItems _ its' _) as [? ?]. discriminate.
      * rewrite <- Hname1. apply (Hlast item'). exact Hl.
Qed.

(** C3. On a table just defined ([nextId] is 1), N calls of [setItem] with
    items that have no id (or a falsy one) give the ids 1 to N in the order
    of the calls, each written into its item; afterwards [nextId] is N + 1,
    and the stored definition is that one when the last call returned. *)
Theorem autoId_sequence {collation : Collation} (tableName : string)
    (ixs : list (string * LocalIndexDef)) (its : list Item) (st : Storage) :
  Forall (fun item => truthy (item !! "id"%string) = false) its ->
  let '(rs, (table', st')) := setItems (mkTable tableName 1 ixs) its st in
  (forall k item, its !! k = Some item ->
     snd <$> rs !! k
       = Some (<["id"%string := JNum (Z.of_nat k + 1)]> item)) /\
  nextId table' = Z.of_nat (length its) + 1 /\
  (forall item', last rs = Some (Return tt, item') ->
     disk st' !! tableName = Some (DTable table')).
Proof.
  intros Hits.
  pose proof (setItems_auto (mkTable tableName 1 ixs) its st Hits) as H.
  destruct (setItems (mkTable tableName 1 ixs) its st) as [rs [table' st']].
  cbn [name nextId] in H. destruct H as (_ & Hnext & Hids & Hlast).
  split; [|split; [lia | exact Hlast]].
  intros k item Hk. rewrite (Hids k item Hk). do 3 f_equal. lia.
Qed.

Lemma autoId_sequence_witness :
  let '(rs, (table', st')) :=
    setItems (mkTable "test" 1 testIndexes)
      [person "steve" 51 2 "dad"; person "annabelle" 4 0 "daughter";
       person "donna" 48 1 "wife"] (mkStorage ∅ []) in
  (forall k item,
     [person "steve" 51 2 "dad"; person "annabelle" 4 0 "daughter";
      person "donna" 48 1 "wife"] !! k = Some item ->
     snd <$> rs !! k
       = Some (<["id"%string := JNum (Z.of_nat k + 1)]> item)) /\
  nextId table' = 3 + 1 /\
  (forall item', last rs = Some (Return tt, item') ->
     disk st' !! "test"%string = Some (DTable table')).
Proof.
  apply (autoId_sequence "test" testIndexes
           [person "steve" 51 2 "dad"; person "annabelle" 4 0 "daughter";
            person "donna" 48 1 "wife"] (mkStorage ∅ [])).
  repeat constructor.
Defined.

(** ** Round trip *)

(** When [setItem] returns, [getItem] with the id the item left with gives
    the item back. *)
Lemma setItem_getItem_roundtrip {collation : Collation} table item st
    table' item' st' :
  setItem table item st = (Return tt, (table', item', st')) ->
  (getItem table' (item' !! "id"%string) st').1 = Return (Some (DItem item')).
Proof.
  intros Hset. pose proof (setItem_effect table item st) as Heff.
  rewrite Hset in Heff. destruct Heff as (_ & Hname & _ & _ & Hdisk & _).
  unfold getItem, AsyncStorage_getItem. cbn [fst]. rewrite Hname, Hdisk.
  reflexivity.
Qed.

(** C4 at the failing input. The second entry of the log: the sort compares
    two timestamps with [localeCompare], which a number does not have, so
    [setItem] throws before anything is written, and [getItem] with the id
    just given to the item finds nothing. *)
Theorem setItem_getItem_locationLog {collation : Collation} :
  let st0 := (defineTable "location-log" (Some (indexes locationLog))
                (mkStorage ∅ [])).2 in
  let '(r1, (table1, item1, st1)) := setItem locationLog (logEntry 1000 "home") st0 in
  let '(r2, (table2, item2, st2)) := setItem table1 (logEntry 2000 "work") st1 in
  r1 = Return tt /\
  (getItem table1 (item1 !! "id"%string) st1).1 = Return (Some (DItem item1)) /\
  r2 = Throw TypeError /\
  item2 !! "id"%string = Some (JNum 2) /\
  st2 = st1 /\
  (getItem table2 (item2 !! "id"%string) st2).1 = Return None.
Proof. vm_compute. repeat split; reflexivity. Qed.

(** ** Numeric ids and their decimal strings *)







(** * Properties of the tracking, the manager and the validation routine *)


(** ** Location tracking *)

Section Location_facts.
Context {Coords Callback ErrorCallback : Type}.
Context (getDistance : Coords -> Coords -> Z).
Context (Accuracy_High ActivityType_Other : Z).
Local Abbreviation LocationInfo := (@Location.LocationInfo Coords).
Local Abbreviation State := (@Location.State Coords Callback ErrorCallback).
Local Abbreviation Step := (@Location.Step Coords Callback ErrorCallback).
Local Abbreviation step := (Location.step getDistance Accuracy_High ActivityType_Other).
Local Abbreviation run := (Location.run getDistance Accuracy_High ActivityType_Other).
Implicit Types (l : option LocationInfo) (s : State).

Lemma compareLocations_true l1 l2 :
  Location.compareLocations l1 l2 = true <->
  exists i1 i2 a1 a2,
    l1 = Some i1 /\ l2 = Some i2 /\
    Location.address i1 = Some a1 /\ Location.address i2 = Some a2 /\
    Location.sameAddress a1 a2.
Proof.
  unfold Location.compareLocations, Location.sameAddress, strictEq. split.
  - destruct l1 as [i1|]; [|discriminate]. destruct l2 as [i2|]; [|discriminate].
    destruct (Location.address i1) as [a1|] eqn:E1; [|discriminate].
    destruct (Location.address i2) as [a2|] eqn:E2; [|discriminate].
    repeat case_bool_decide; simpl; try discriminate;
      intros _; exists i1, i2, a1, a2; auto 10.
  - intros (i1 & i2 & a1 & a2 & -> & -> & -> & -> & H1 & H2 & H3 & H4 & H5).
    rewrite H1, H2, H3, H4, H5.
    repeat case_bool_decide; simpl; congruence.
Qed.

(** X1: [compareLocations] is symmetric and transitive, and a location
    compares equal to itself exactly when it has an address. *)
Theorem compareLocations_equivalence l1 l2 l3 :
  Location.compareLocations l1 l2 = Location.compareLocations l2 l1 /\
  (Location.compareLocations l1 l2 = true ->
   Location.compareLocations l2 l3 = true ->
   Location.compareLocations l1 l3 = true) /\
  (Location.compareLocations l1 l1 = true <->
   exists i a, l1 = Some i /\ Location.address i = Some a).
Proof.
  split; [|split].
  - apply eq_true_iff_eq. rewrite !compareLocations_true.
    unfold Location.sameAddress.
    split; intros (i1 & i2 & a1 & a2 & ? & ? & ? & ? & H1 & H2 & H3 & H4 & H5);
      exists i2, i1, a2, a1; auto 10.
  - rewrite !compareLocations_true. unfold Location.sameAddress.
    intros (i1 & i2 & a1 & a2 & -> & -> & Ha1 & Ha2 & H1 & H2 & H3 & H4 & H5).
    intros (i2' & i3 & a2' & a3 & [= <-] & -> & Ha2' & Ha3 & K1 & K2 & K3 & K4 & K5).
    rewrite Ha2 in Ha2'. injection Ha2' as <-.
    exists i1, i3, a1, a3. repeat split; congruence.
  - rewrite compareLocations_true. unfold Location.sameAddress. split.
    + intros (i1 & _ & a1 & _ & -> & _ & Ha & _). eauto.
    + intros (i & a & -> & Ha). exists i, i, a, a. auto 10.
Qed.

(** X2: the coordinates, the timestamp and the fields of the address other
    than the five do not count. *)
Theorem compareLocations_fields (i1 : LocationInfo) l2
    (a : Item) (c : Coords) (t : Z) (k : string) (v : option JsValue) :
  Location.address i1 = Some a ->
  k <> "name"%string -> k <> "street"%string -> k <> "city"%string ->
  k <> "region"%string -> k <> "country"%string ->
  Location.compareLocations
    (Some (Location.mkInfo c t (Some (partial_alter (fun _ => v) k a)))) l2
  = Location.compareLocations (Some i1) l2.
Proof.
  intros Ha ? ? ? ? ?. unfold Location.compareLocations. simpl. rewrite Ha.
  destruct l2 as [i2|]; [|reflexivity].
  destruct (Location.address i2) as [a2|]; [|reflexivity].
  rewrite !lookup_partial_alter_ne by congruence. reflexivity.
Qed.

(** *** Subscriptions *)

Lemma findAddress_frame (location : LocationInfo) addresses s :
  let s' := (Location.findAddress getDistance location addresses s).2 in
  Location.changeSubscriptions s' = Location.changeSubscriptions s /\
  Location.errorSubscriptions s' = Location.errorSubscriptions s /\
  Location.trackingOptions s' = Location.trackingOptions s /\
  Location.currentLocation s' = Location.currentLocation s /\
  Location.symbols s' = Location.symbols s /\
  (Location.events s' = Location.events s \/
   Location.events s'
     = Location.events s ++ [Location.ReverseGeocodeAsync (Location.coords location)]).
Proof.
  unfold Location.findAddress.
  destruct (Location.trackingOptions s) as [o|] eqn:Ho; simpl; [|tauto].
  destruct (Location.consult _ _ _ _); simpl; tauto.
Qed.

Lemma step_frame (a : Step) s :
  exists new,
    Location.events (step a s) = Location.events s ++ new /\
    (forall callback location,
       In (Location.Called callback location) new ->
       In callback (map snd (Location.changeSubscriptions s)) \/
       a = Location.SubscribeToChanges callback) /\
    (forall callback,
       In callback (map snd (Location.changeSubscriptions (step a s))) ->
       In callback (map snd (Location.changeSubscriptions s)) \/
       a = Location.SubscribeToChanges callback).
Proof.
  assert (Hn : forall (location : LocationInfo) callback location' subs,
            In (Location.Called (ErrorCallback := ErrorCallback) callback location')
               (map (fun kc : Location.Symbol * Callback =>
                       Location.Called kc.2 location) subs) ->
            In callback (map snd subs)).
  { intros location callback location' subs Hin.
    apply in_map_iff in Hin as (kc & [= <- _] & Hin). now apply in_map. }
  destruct a as [callback|key|callback|key|locations error addresses|info
                |taskName options OS response]; simpl.
  - unfold Location.subscribeToChanges.
    destruct (Location.currentLocation s) as [location|]; simpl.
    + exists [Location.Called callback location]. split; [reflexivity|]. split.
      * intros callback' location' [[= <- _]|[]]. now right.
      * intros callback'. rewrite map_app, in_app_iff. simpl.
        intros [?|[<-|[]]]; auto.
    + exists []. split; [now rewrite app_nil_r|]. split.
      * intros ? ? [].
      * intros callback'. rewrite map_app, in_app_iff. simpl.
        intros [?|[<-|[]]]; auto.
  - exists []. split; [now rewrite app_nil_r|]. split; [intros ? ? []|].
    intros callback. rewrite !in_map_iff.
    intros (kc & <- & Hin). apply list_elem_of_In, list_elem_of_filter in Hin.
    left. exists kc. split; [reflexivity|]. apply list_elem_of_In, Hin.
  - exists []. split; [now rewrite app_nil_r|]. split; [intros ? ? []|auto].
  - exists []. split; [now rewrite app_nil_r|]. split; [intros ? ? []|auto].
  - unfold Location.TASK_HANDLER.
    destruct error as [message|].
    { simpl. eexists. split; [reflexivity|]. split; [|auto].
      intros callback location Hin. apply in_map_iff in Hin as (? & [=] & _). }
    assert (Hcase :
      exists r s1,
        match locations with
        | Some (location :: _) =>
            let (r, s0) := Location.findAddress getDistance location addresses s in
            (info ← r; Return (Some info), s0)
        | _ => (Return None, s)
        end = (r, s1) /\
        Location.changeSubscriptions s1 = Location.changeSubscriptions s /\
        exists new1, Location.events s1 = Location.events s ++ new1 /\
          forall callback location, ~ In (Location.Called callback location) new1).
    { destruct locations as [[|location more]|].
      1,3: exists (Return None), s; split; [reflexivity|]; split; [reflexivity|];
           exists []; split; [now rewrite app_nil_r|]; intros ? ? [].
      pose proof (findAddress_frame location addresses s) as Hf.
      destruct (Location.findAddress getDistance location addresses s) as [r s1].
      simpl in Hf. destruct Hf as (H1 & _ & _ & _ & _ & H6).
      eexists _, s1. split; [reflexivity|]. split; [exact H1|].
      destruct H6 as [H6|H6]; rewrite H6.
      - exists []. split; [now rewrite app_nil_r|]. intros ? ? [].
      - eexists. split; [reflexivity|]. intros ? ? [[=]|[]]. }
    destruct Hcase as (r & s1 & -> & Hsubs & new1 & Hev & Hnew1).
    destruct r as [[info|]|e]; simpl.
    2,3: exists new1; split; [exact Hev|]; split;
         [intros ? ? Hin; now apply Hnew1 in Hin | rewrite Hsubs; auto].
    destruct (bool_decide _ && negb _); simpl.
    2: exists new1; split; [exact Hev|]; split;
         [intros ? ? Hin; now apply Hnew1 in Hin | rewrite Hsubs; auto].
    destruct (Location.currentLocation s1) as [cur|]; simpl.
    + destruct (Location.trackingOptions s1) as [o|]; simpl.
      * rewrite Hev, <- app_assoc. eexists. split; [reflexivity|].
        split; [|rewrite Hsubs; auto].
        intros callback location. rewrite in_app_iff.
        intros [Hin|[[=]|[]]]. now apply Hnew1 in Hin.
      * exists new1; split; [exact Hev|]; split;
         [intros ? ? Hin; now apply Hnew1 in Hin | rewrite Hsubs; auto].
    + rewrite Hev, <- app_assoc. eexists. split; [reflexivity|].
      split; [|rewrite Hsubs; auto].
      intros callback location. rewrite in_app_iff.
      intros [Hin|Hin]; [now apply Hnew1 in Hin|].
      left. rewrite <- Hsubs. eapply Hn, Hin.
  - unfold Location.dwellElapsed.
    destruct (Location.compareLocations _ _).
    2: exists []; split; [now rewrite app_nil_r|]; split; [intros ? ? []|auto].
    destruct (Location.currentLocation s) as [location|]; simpl.
    2: exists []; split; [now rewrite app_nil_r|]; split; [intros ? ? []|auto].
    eexists. split; [reflexivity|]. split; [|auto].
    intros callback location' Hin. left. eapply Hn, Hin.
  - unfold Location.start.
    set (s0 := Location.mkState _ _ _ _ _ _ _).
    set (s1 := match Location.apiKey _ with Some _ => _ | None => _ end).
    assert (H1 : Location.changeSubscriptions s1 = Location.changeSubscriptions s
                 /\ exists new1, Location.events s1 = Location.events s ++ new1 /\
                      forall callback location,
                        ~ In (Location.Called callback location) new1).
    { subst s1. destruct (Location.apiKey _) as [key|].
      - destruct (String.eqb key ""); simpl.
        + split; [reflexivity|]. exists []. split; [now rewrite app_nil_r|].
          intros ? ? [].
        + split; [reflexivity|]. eexists. split; [reflexivity|].
          intros ? ? [[=]|[]].
      - split; [reflexivity|]. exists []. split; [now rewrite app_nil_r|].
        intros ? ? []. }
    destruct H1 as (Hsubs & new1 & Hev & Hnew1).
    destruct (negb _ || _); simpl; rewrite Hev, <- ?app_assoc.
    all: eexists; split; [reflexivity|]; split; [|rewrite Hsubs; auto].
    all: intros callback location; rewrite !in_app_iff.
    + intros [Hin|[[=]|[]]]. now apply Hnew1 in Hin.
    + intros [Hin|[[[=]|[]]|[[=]|[]]]]. now apply Hnew1 in Hin.
Qed.

Lemma step_subscriptions (a : Step) s :
  Location.keysCreated s -> Location.keysCreated (step a s).
Proof.
  assert (Hmono : forall (C : Type) (l : list (Location.Symbol * C)) n m,
            (n <= m)%nat ->
            Forall (fun kc => (kc.1 < n)%nat) l ->
            Forall (fun kc => (kc.1 < m)%nat) l).
  { intros C l n m Hnm Hl. eapply Forall_impl; [exact Hl|].
    intros kc Hkc. simpl in *. lia. }
  assert (Hfilter : forall (C : Type) (l : list (Location.Symbol * C)) n key,
            Forall (fun kc => (kc.1 < n)%nat) l ->
            Forall (fun kc => (kc.1 < n)%nat)
                   (filter (fun kc => kc.1 <> key) l)).
  { intros C l n key Hl. apply Forall_forall. intros kc Hin.
    apply list_elem_of_filter in Hin as [_ Hin].
    exact (proj1 (Forall_forall _ _) Hl kc Hin). }
  intros [Hc He].
  destruct a as [callback|key|callback|key|locations error addresses|info
                |taskName options OS response]; simpl.
  - unfold Location.subscribeToChanges, Location.keysCreated.
    destruct (Location.currentLocation s); simpl; split.
    1,3: apply Forall_app; split;
         [eapply Hmono; [|exact Hc]; lia | constructor; [simpl; lia|constructor]].
    all: eapply Hmono; [|exact He]; lia.
  - split; simpl; [now apply Hfilter|exact He].
  - split; simpl.
    + eapply Hmono; [|exact Hc]; lia.
    + apply Forall_app; split;
        [eapply Hmono; [|exact He]; lia | constructor; [simpl; lia|constructor]].
  - split; simpl; [exact Hc|now apply Hfilter].
  - unfold Location.TASK_HANDLER. destruct error as [message|]; [now split|].
    destruct locations as [[|location more]|]; simpl; [now split| |now split].
    pose proof (findAddress_frame location addresses s) as Hf.
    destruct (Location.findAddress getDistance location addresses s) as [r s1].
    simpl in Hf. destruct Hf as (H1 & H2 & _ & _ & H5 & _).
    assert (Hs1 : Location.keysCreated s1)
      by (unfold Location.keysCreated; now rewrite H1, H2, H5).
    destruct r as [info|e]; simpl; [|exact Hs1].
    destruct (bool_decide _ && negb _); simpl; [|exact Hs1].
    destruct (Location.currentLocation s1); simpl.
    + destruct (Location.trackingOptions s1); simpl; exact Hs1.
    + exact Hs1.
  - unfold Location.dwellElapsed.
    destruct (Location.compareLocations _ _); [|now split].
    destruct (Location.currentLocation s); now split.
  - unfold Location.start.
    destruct (Location.apiKey _) as [key|].
    + destruct (String.eqb key ""); destruct (negb _ || _); now split.
    + destruct (negb _ || _); now split.
Qed.

Lemma run_subscriptions (steps : list Step) s :
  Location.keysCreated s -> Location.keysCreated (run steps s).
Proof.
  revert s. induction steps as [|a steps IH]; intros s Hs; [exact Hs|].
  change (run (a :: steps) s) with (run steps (step a s)).
  now apply IH, step_subscriptions.
Qed.

(** X3: whatever happened to the module before, two subscriptions are
    independent: each one is cancelled by its own function only, and a
    function that cancelled once does nothing more. *)
Theorem subscribe_cancel (steps : list Step) (callback1 callback2 : Callback) :
  let s := run steps Location.initial in
  let (key1, s1) := Location.subscribeToChanges callback1 s in
  let (key2, s2) := Location.subscribeToChanges callback2 s1 in
  Location.changeSubscriptions s2
    = Location.changeSubscriptions s ++ [(key1, callback1); (key2, callback2)] /\
  Location.changeSubscriptions (Location.cancelChange key1 s2)
    = Location.changeSubscriptions s ++ [(key2, callback2)] /\
  Location.changeSubscriptions
      (Location.cancelChange key2 (Location.cancelChange key1 s2))
    = Location.changeSubscriptions s /\
  Location.cancelChange key1 (Location.cancelChange key1 s2)
    = Location.cancelChange key1 s2.
Proof.
  intros s.
  assert (Hs : Location.keysCreated s)
    by (apply run_subscriptions; split; constructor).
  destruct Hs as [Hc _].
  assert (Hf : forall k, (Location.symbols s <= k)%nat ->
            filter (fun kc : Location.Symbol * Callback => kc.1 <> k)
              (Location.changeSubscriptions s) = Location.changeSubscriptions s).
  { intros k Hk. induction Hc as [|kc l Hlt _ IH]; [reflexivity|].
    rewrite filter_cons_True by (unfold Location.Symbol in *; simpl; lia).
    now rewrite IH. }
  unfold Location.subscribeToChanges.
  destruct (Location.currentLocation s); simpl.
  all: rewrite <- !app_assoc; simpl.
  all: split; [reflexivity|].
  all: unfold Location.cancelChange; simpl.
  all: repeat first
         [ rewrite filter_app
         | rewrite Hf by lia
         | rewrite filter_cons_True by (unfold Location.Symbol in *; simpl; lia)
         | rewrite filter_cons_False by (unfold Location.Symbol in *; simpl; lia)
         | rewrite filter_nil
         | rewrite app_nil_r ].
  all: auto.
Qed.

(** X4: a callback that holds no subscription is never called. *)
Theorem unsubscribed_never_called (steps : list Step) s (callback : Callback) :
  ~ In callback (map snd (Location.changeSubscriptions s)) ->
  Forall (fun a => a <> Location.SubscribeToChanges callback) steps ->
  forall location,
    In (Location.Called callback location) (Location.events (run steps s)) ->
    In (Location.Called callback location) (Location.events s).
Proof.
  revert s. induction steps as [|a steps IH]; intros s Hnot Hsteps location;
    [auto|].
  apply Forall_cons in Hsteps as [Ha Hsteps].
  destruct (step_frame a s) as (new & Hev & Hcalled & Hsubs).
  change (run (a :: steps) s) with (run steps (step a s)).
  intros Hin. apply IH in Hin; [|intros H; apply Hsubs in H; tauto|exact Hsteps].
  rewrite Hev, in_app_iff in Hin. destruct Hin as [Hin|Hin]; [exact Hin|].
  apply Hcalled in Hin. tauto.
Qed.

(** *** The address cache *)

Lemma consult_first radius (c : Coords) before (entry : LocationInfo) after :
  Forall (fun e => Location.within radius
                     (getDistance c (Location.coords e)) = false) before ->
  Location.within radius (getDistance c (Location.coords entry)) = true ->
  Location.consult getDistance radius c (before ++ entry :: after) = Some entry.
Proof.
  intros Hb He. induction Hb as [|e before Hx _ IH]; simpl.
  - now rewrite He.
  - now rewrite Hx.
Qed.

Lemma consult_miss radius (c : Coords) (cache : list LocationInfo) :
  Forall (fun e => Location.within radius
                     (getDistance c (Location.coords e)) = false) cache ->
  Location.consult getDistance radius c cache = None.
Proof.
  intros Hb. induction Hb as [|e before Hx _ IH]; simpl; [reflexivity|].
  now rewrite Hx.
Qed.

Lemma findAddress_hit s o d (location : LocationInfo) addresses
    before entry after :
  Location.trackingOptions s = Some o ->
  Location.distanceInterval o = Some d ->
  Location.locationCache s = before ++ entry :: after ->
  Forall (fun e => d / 2 < getDistance (Location.coords location)
                                       (Location.coords e)) before ->
  getDistance (Location.coords location) (Location.coords entry) <= d / 2 ->
  Location.findAddress getDistance location addresses s = (Return entry, s).
Proof.
  intros Ho Hd Hc Hb He. unfold Location.findAddress.
  rewrite Ho, Hd, Hc. simpl. rewrite consult_first; [reflexivity| |].
  - eapply Forall_impl; [exact Hb|]. simpl. intros e ?. lia.
  - simpl. lia.
Qed.

(** X5: [findAddress] answers with the first entry of the cache that is
    within the radius, as it is cached: the geocoder is not asked and the
    cache stays as it is. *)
Theorem findAddress_cached s o d (location : LocationInfo) addresses
    before entry after :
  Location.trackingOptions s = Some o ->
  Location.distanceInterval o = Some d ->
  Location.locationCache s = before ++ entry :: after ->
  Forall (fun e => d / 2 < getDistance (Location.coords location)
                                       (Location.coords e)) before ->
  getDistance (Location.coords location) (Location.coords entry) <= d / 2 ->
  Location.findAddress getDistance location addresses s = (Return entry, s) /\
  In entry (Location.locationCache s).
Proof.
  intros Ho Hd Hc Hb He. split; [now apply (findAddress_hit s o d _ _ before _ after)|].
  rewrite Hc. apply in_app_iff. right. now left.
Qed.

Lemma findAddress_cache s o n (location : LocationInfo) addresses :
  Location.trackingOptions s = Some o ->
  Location.cacheSize o = Some n ->
  Z.of_nat (length (Location.locationCache s)) <= n ->
  Z.of_nat (length (Location.locationCache
                      (Location.findAddress getDistance location addresses s).2))
    <= n.
Proof.
  intros Ho Hn Hlen. unfold Location.findAddress. rewrite Ho, Hn.
  destruct (Location.consult _ _ _ _); simpl; [exact Hlen|].
  destruct (n <? _) eqn:E; simpl.
  - destruct (Location.locationCache s) as [|e cache]; simpl in *;
      rewrite ?length_app; simpl; lia.
  - lia.
Qed.

Lemma step_cache (a : Step) s o n :
  (forall taskName options OS response,
     a <> Location.Start taskName options OS response) ->
  Location.trackingOptions s = Some o ->
  Location.cacheSize o = Some n ->
  Z.of_nat (length (Location.locationCache s)) <= n ->
  Location.trackingOptions (step a s) = Some o /\
  Z.of_nat (length (Location.locationCache (step a s))) <= n.
Proof.
  intros Ha Ho Hn Hlen.
  destruct a as [callback|key|callback|key|locations error addresses|info
                |taskName options OS response]; simpl.
  - unfold Location.subscribeToChanges.
    destruct (Location.currentLocation s); simpl; auto.
  - auto.
  - auto.
  - auto.
  - unfold Location.TASK_HANDLER. destruct error as [message|]; [simpl; auto|].
    destruct locations as [[|location more]|]; simpl; auto.
    pose proof (findAddress_frame location addresses s) as Hf.
    pose proof (findAddress_cache s o n location addresses Ho Hn Hlen) as Hc.
    destruct (Location.findAddress getDistance location addresses s) as [r s1].
    simpl in Hf, Hc. destruct Hf as (_ & _ & H3 & _).
    rewrite Ho in H3.
    destruct r as [info|e]; simpl; auto.
    destruct (bool_decide _ && negb _); simpl; auto.
    destruct (Location.currentLocation s1); simpl; auto.
    rewrite H3. simpl. auto.
  - unfold Location.dwellElapsed.
    destruct (Location.compareLocations _ _); auto.
    destruct (Location.currentLocation s); simpl; auto.
  - now destruct (Ha taskName options OS response).
Qed.

(** X6: between two calls of [start] the cache never holds more than
    [cacheSize] entries. *)
Theorem cache_bounded (steps : list Step) s o n :
  Location.trackingOptions s = Some o ->
  Location.cacheSize o = Some n ->
  Z.of_nat (length (Location.locationCache s)) <= n ->
  Forall (fun a => forall taskName options OS response,
            a <> Location.Start taskName options OS response) steps ->
  Z.of_nat (length (Location.locationCache (run steps s))) <= n.
Proof.
  intros Ho Hn Hlen Hsteps. revert s Ho Hlen.
  induction Hsteps as [|a steps Ha _ IH]; intros s Ho Hlen; [exact Hlen|].
  change (run (a :: steps) s) with (run steps (step a s)).
  destruct (step_cache a s o n Ha Ho Hn Hlen) as [Ho' Hlen'].
  now apply IH.
Qed.

(** *** The task *)

Local Arguments Location.compareLocations : simpl never.

Lemma findAddress_geocoded s o d (location : LocationInfo) addresses :
  Location.trackingOptions s = Some o ->
  Location.distanceInterval o = Some d ->
  Forall (fun e => d / 2 < getDistance (Location.coords location)
                                       (Location.coords e))
         (Location.locationCache s) ->
  let info :=
    match addresses with
    | Some (a :: _) =>
        Location.mkInfo (Location.coords location) (Location.timestamp location)
                        (Some a)
    | _ => location
    end in
  let cache := Location.locationCache s ++ [info] in
  Location.findAddress getDistance location addresses s
  = (Return info,
     Location.mkState (Location.changeSubscriptions s)
       (Location.errorSubscriptions s) (Some o) (Location.currentLocation s)
       (match Location.cacheSize o with
        | Some n => if n <? Z.of_nat (length cache) then tail cache else cache
        | None => cache
        end)
       (Location.symbols s)
       (Location.events s
          ++ [Location.ReverseGeocodeAsync (Location.coords location)])).
Proof.
  intros Ho Hd Hmiss. unfold Location.findAddress. rewrite Ho, Hd. simpl.
  rewrite consult_miss.
  2: { eapply Forall_impl; [exact Hmiss|]. simpl. intros e ?. lia. }
  unfold Location.setLocationCache, Location.emit. simpl. rewrite Ho.
  reflexivity.
Qed.

(** X7: the first fix that has an address is told at once to every
    subscriber, in the order of the subscriptions; the fixes after the
    first one of the batch are not looked at. *)
Theorem first_fix s o d (location : LocationInfo) more a rest :
  Location.trackingOptions s = Some o ->
  Location.distanceInterval o = Some d ->
  Location.currentLocation s = None ->
  Forall (fun e => d / 2 < getDistance (Location.coords location)
                                       (Location.coords e))
         (Location.locationCache s) ->
  let info :=
    Location.mkInfo (Location.coords location) (Location.timestamp location)
                    (Some a) in
  exists s',
    Location.TASK_HANDLER getDistance (Some (location :: more)) None
      (Some (a :: rest)) s = (Return tt, s') /\
    Location.currentLocation s' = Some info /\
    Location.changeSubscriptions s' = Location.changeSubscriptions s /\
    Location.events s'
      = Location.events s
        ++ Location.ReverseGeocodeAsync (Location.coords location)
           :: map (fun kc => Location.Called kc.2 info)
                  (Location.changeSubscriptions s).
Proof.
  intros Ho Hd Hcur Hmiss info. unfold Location.TASK_HANDLER.
  rewrite (findAddress_geocoded s o d location (Some (a :: rest)) Ho Hd Hmiss).
  simpl. rewrite Hcur. simpl.
  eexists. split; [reflexivity|]. simpl. rewrite <- app_assoc.
  auto.
Qed.

(** X8: a move to another address is told after the dwell time only, and
    only if the current location is still at that address then. *)
Theorem dwell s o d (location cur : LocationInfo) more a rest :
  Location.trackingOptions s = Some o ->
  Location.distanceInterval o = Some d ->
  Location.currentLocation s = Some cur ->
  Forall (fun e => d / 2 < getDistance (Location.coords location)
                                       (Location.coords e))
         (Location.locationCache s) ->
  let info :=
    Location.mkInfo (Location.coords location) (Location.timestamp location)
                    (Some a) in
  Location.compareLocations (Some info) (Some cur) = false ->
  exists s',
    Location.TASK_HANDLER getDistance (Some (location :: more)) None
      (Some (a :: rest)) s = (Return tt, s') /\
    Location.currentLocation s' = Some info /\
    Location.events s'
      = Location.events s
        ++ [Location.ReverseGeocodeAsync (Location.coords location);
            Location.SetTimeout info (Location.dwellTime o)] /\
    Location.events (Location.dwellElapsed info s')
      = Location.events s'
        ++ map (fun kc => Location.Called kc.2 info)
               (Location.changeSubscriptions s) /\
    forall s'' : State,
      Location.compareLocations (Some info) (Location.currentLocation s'') = false ->
      Location.dwellElapsed info s'' = s''.
Proof.
  intros Ho Hd Hcur Hmiss info Hdiff. unfold Location.TASK_HANDLER.
  rewrite (findAddress_geocoded s o d location (Some (a :: rest)) Ho Hd Hmiss).
  simpl. rewrite Hcur. fold info. rewrite Hdiff. simpl.
  eexists. split; [reflexivity|]. simpl. rewrite <- app_assoc.
  split; [reflexivity|]. split; [reflexivity|]. split.
  - unfold Location.dwellElapsed. simpl.
    assert (Hself : Location.compareLocations (Some info) (Some info) = true).
    { apply compareLocations_true. exists info, info, a, a.
      unfold Location.sameAddress. auto 10. }
    rewrite Hself. simpl. now rewrite <- !app_assoc.
  - intros s'' Hne. unfold Location.dwellElapsed. now rewrite Hne.
Qed.

(** X22: a fix that resolves to the address of the current location tells
    nobody and sets no timer, and the current location stays the earlier
    fix, with its coordinates and its timestamp. *)
Theorem same_address s o d (location cur : LocationInfo) more a rest :
  Location.trackingOptions s = Some o ->
  Location.distanceInterval o = Some d ->
  Location.currentLocation s = Some cur ->
  Forall (fun e => d / 2 < getDistance (Location.coords location)
                                       (Location.coords e))
         (Location.locationCache s) ->
  Location.compareLocations
    (Some (Location.mkInfo (Location.coords location)
             (Location.timestamp location) (Some a))) (Some cur) = true ->
  exists s',
    Location.TASK_HANDLER getDistance (Some (location :: more)) None
      (Some (a :: rest)) s = (Return tt, s') /\
    Location.currentLocation s' = Some cur /\
    Location.changeSubscriptions s' = Location.changeSubscriptions s /\
    Location.events s'
      = Location.events s
        ++ [Location.ReverseGeocodeAsync (Location.coords location)].
Proof.
  intros Ho Hd Hcur Hmiss Hsame. unfold Location.TASK_HANDLER.
  rewrite (findAddress_geocoded s o d location (Some (a :: rest))
             Ho Hd Hmiss).
  simpl. rewrite Hcur, Hsame. simpl.
  eexists. split; [reflexivity|]. simpl. auto.
Qed.
(** X9: a fix that the geocoder has no address for is cached as it is, and a
    later fix within the radius gets it from the cache: nothing is asked and
    nobody is told, whatever the geocoder would answer now. *)
Theorem addressless_cached s o d n (location1 location2 : LocationInfo)
    addresses1 :
  Location.trackingOptions s = Some o ->
  Location.distanceInterval o = Some d ->
  Location.cacheSize o = Some n ->
  Z.of_nat (length (Location.locationCache s)) < n ->
  Location.address location1 = None ->
  addresses1 = None \/ addresses1 = Some [] ->
  Forall (fun e => d / 2 < getDistance (Location.coords location1)
                                       (Location.coords e))
         (Location.locationCache s) ->
  Forall (fun e => d / 2 < getDistance (Location.coords location2)
                                       (Location.coords e))
         (Location.locationCache s) ->
  getDistance (Location.coords location2) (Location.coords location1) <= d / 2 ->
  exists s',
    Location.TASK_HANDLER getDistance (Some [location1]) None addresses1 s
      = (Return tt, s') /\
    Location.locationCache s' = Location.locationCache s ++ [location1] /\
    Location.currentLocation s' = Location.currentLocation s /\
    Location.events s'
      = Location.events s
        ++ [Location.ReverseGeocodeAsync (Location.coords location1)] /\
    forall more addresses2,
      Location.TASK_HANDLER getDistance (Some (location2 :: more)) None
        addresses2 s' = (Return tt, s').
Proof.
  intros Ho Hd Hn Hlen Hnone Hgeo Hmiss1 Hmiss2 Hnear.
  unfold Location.TASK_HANDLER at 1.
  rewrite (findAddress_geocoded s o d location1 addresses1 Ho Hd Hmiss1).
  assert (Hinfo : match addresses1 with
                  | Some (a :: _) =>
                      Location.mkInfo (Location.coords location1)
                        (Location.timestamp location1) (Some a)
                  | _ => location1
                  end = location1) by (destruct Hgeo as [-> | ->]; reflexivity).
  rewrite Hinfo, Hn.
  replace (n <? _) with false
    by (symmetry; apply Z.ltb_ge; rewrite length_app; simpl; lia).
  simpl. rewrite Hnone.
  rewrite bool_decide_eq_false_2 by (intros [? [=]]). simpl.
  eexists. split; [reflexivity|]. simpl.
  split; [reflexivity|]. split; [reflexivity|]. split; [reflexivity|].
  intros more addresses2. unfold Location.TASK_HANDLER.
  erewrite findAddress_hit; [|reflexivity|exact Hd|reflexivity|exact Hmiss2|exact Hnear].
  simpl. rewrite Hnone.
  rewrite bool_decide_eq_false_2 by (intros [? [=]]). reflexivity.
Qed.

End Location_facts.

(** ** The key layout and the application state manager *)

Lemma hasSeparator_itemKey tableName id :
  hasSeparator (itemKey tableName id) = true.
Proof.
  unfold itemKey. induction tableName as [|c n IH].
  - reflexivity.
  - change (hasSeparator (String c (n +:+ "|" +:+ ToString id)) = true).
    simpl. rewrite IH. apply orb_true_r.
Qed.

Lemma setItem_disk {collation : Collation} table item st :
  let '(r, (table', item', st')) := setItem table item st in
  disk st' = disk st \/
  disk st' = <[itemKey (name table) (item' !! "id"%string) := DItem item']> (disk st) \/
  disk st' = <[name table := DTable table']>
               (<[itemKey (name table) (item' !! "id"%string) := DItem item']> (disk st)).
Proof.
  unfold setItem.
  destruct (negb (truthy (item !! "id"%string))); unfold updateTableIndexes; simpl.
  - destruct (updateIndexes _ _ _) as [[m|e] ixs]; simpl; auto.
  - destruct (updateIndexes _ _ _) as [[m|e] ixs]; simpl; auto.
    destruct m; simpl; auto.
Qed.

Lemma itemsKeyed_insert_table d k t :
  itemsKeyed d -> itemsKeyed (<[k := DTable t]> d).
Proof.
  intros Hd k' i. destruct (decide (k' = k)) as [->|Hne].
  - rewrite lookup_insert_eq. discriminate.
  - rewrite lookup_insert_ne by congruence. apply Hd.
Qed.

Lemma itemsKeyed_insert_item d tableName id i :
  itemsKeyed d -> itemsKeyed (<[itemKey tableName id := DItem i]> d).
Proof.
  intros Hd k' i'. destruct (decide (k' = itemKey tableName id)) as [->|Hne].
  - intros _. apply hasSeparator_itemKey.
  - rewrite lookup_insert_ne by congruence. apply Hd.
Qed.

Lemma itemsKeyed_delete d k : itemsKeyed d -> itemsKeyed (delete k d).
Proof.
  intros Hd k' i. destruct (decide (k' = k)) as [->|Hne].
  - rewrite lookup_delete_eq. discriminate.
  - rewrite lookup_delete_ne by congruence. apply Hd.
Qed.

(** X11: an item is only ever stored under a key that holds the separator. *)
Theorem layout_kept {collation : Collation} (st : Storage) :
  itemsKeyed (disk st) ->
  (forall tableName ixs, itemsKeyed (disk (defineTable tableName ixs st).2)) /\
  (forall table item, itemsKeyed (disk (setItem table item st).2.2)) /\
  (forall table id, itemsKeyed (disk (removeItem table id st).2.2)) /\
  (forall tableName, itemsKeyed (disk (deleteTable tableName st).2)).
Proof.
  intros Hd. split; [|split; [|split]].
  - intros tableName ixs. unfold defineTable, AsyncStorage_getItem. simpl.
    destruct (disk st !! tableName); simpl; [exact Hd|].
    now apply itemsKeyed_insert_table.
  - intros table item. pose proof (setItem_disk table item st) as H.
    destruct (setItem table item st) as [r [[table' item'] st']]. simpl.
    destruct H as [-> | [-> | ->]]; auto using itemsKeyed_insert_table,
      itemsKeyed_insert_item.
  - intros table id. unfold removeItem.
    destruct (removeFromIndexes _ _ _) as [ixs m]. simpl.
    apply itemsKeyed_delete. destruct m; simpl; [|exact Hd].
    now apply itemsKeyed_insert_table.
  - intros tableName. unfold deleteTable, AsyncStorage_getAllKeys. simpl.
    destruct (0 <? _); simpl; [|exact Hd].
    intros k i. rewrite lookup_multiRemove. destruct (decide _); [discriminate|].
    apply Hd.
Qed.

Lemma hasSeparator_application : hasSeparator LocalStore.APPLICATION_TABLE = false.
Proof. reflexivity. Qed.

Section LocalStore_facts.
Context {collation : Collation}.
Context {Coords Callback ErrorCallback : Type}.
Local Abbreviation LState := (@Location.State Coords Callback ErrorCallback).

(** X12: [start] defines what is missing, opens both tables and subscribes. *)
Theorem start_opens (handler : Callback) defaults s (loc : LState) st :
  itemsKeyed (disk st) ->
  exists app log st',
    LocalStore.start handler defaults s loc st
      = Some (Return tt,
              (LocalStore.mkState (Some app) (Some log) (Some defaults),
               (Location.subscribeToChanges handler loc).2, st')) /\
    disk st' !! "application"%string = Some (DTable app) /\
    disk st' !! "location-log"%string = Some (DTable log) /\
    (disk st !! "application"%string = None ->
     app = mkTable "application" 1 []) /\
    (disk st !! "location-log"%string = None ->
     log = mkTable "location-log" 1
             [("timestamp"%string, mkIndex (Some false) None None)]) /\
    (forall k, is_Some (disk st !! k) -> disk st' !! k = disk st !! k) /\
    (forall k, k <> "application"%string -> k <> "location-log"%string ->
               disk st' !! k = disk st !! k).
Proof.
  intros Hd. unfold LocalStore.start, defineTable, openTable, AsyncStorage_getItem,
    AsyncStorage_setItem, LocalStore.APPLICATION_TABLE, LocalStore.LOCATION_LOG_TABLE.
  simpl.
  destruct (disk st !! "application"%string) as [[app|i]|] eqn:Ea; simpl.
  2: { apply Hd in Ea. discriminate. }
  - destruct (disk st !! "location-log"%string) as [[log|i]|] eqn:El; simpl.
    2: { apply Hd in El. discriminate. }
    + rewrite Ea. simpl. rewrite El. simpl.
      destruct (Location.subscribeToChanges handler loc) as [key loc'].
      eexists _, _, _. split; [reflexivity|]. simpl.
      repeat split; auto; discriminate.
    + rewrite lookup_insert_ne by discriminate. rewrite Ea. simpl.
      rewrite lookup_insert_eq. simpl.
      destruct (Location.subscribeToChanges handler loc) as [key loc'].
      eexists _, _, _. split; [reflexivity|]. simpl.
      rewrite lookup_insert_ne by discriminate. rewrite lookup_insert_eq.
      split; [exact Ea|]. split; [reflexivity|]. split; [discriminate|].
      split; [reflexivity|]. split.
      * intros k [d Hk]. rewrite lookup_insert_ne; [reflexivity|].
        intros <-. rewrite El in Hk. discriminate.
      * intros k _ Hk. now rewrite lookup_insert_ne.
  - destruct (<[_ := _]> (disk st) !! "location-log"%string) as [[log|i]|] eqn:El;
      simpl; rewrite lookup_insert_ne in El by discriminate.
    2: { apply Hd in El. discriminate. }
    + rewrite lookup_insert_eq. simpl. rewrite lookup_insert_ne by discriminate.
      rewrite El. simpl.
      destruct (Location.subscribeToChanges handler loc) as [key loc'].
      eexists _, _, _. split; [reflexivity|]. simpl.
      rewrite lookup_insert_eq, lookup_insert_ne by discriminate.
      split; [reflexivity|]. split; [exact El|]. split; [reflexivity|].
      split; [intros Hn; rewrite Hn in El; discriminate|]. split.
      * intros k [d Hk]. rewrite lookup_insert_ne; [reflexivity|].
        intros <-. rewrite Ea in Hk. discriminate.
      * intros k Hk _. now rewrite lookup_insert_ne.
    + rewrite lookup_insert_ne by discriminate. rewrite lookup_insert_eq. simpl.
      rewrite lookup_insert_eq. simpl.
      destruct (Location.subscribeToChanges handler loc) as [key loc'].
      eexists _, _, _. split; [reflexivity|]. simpl.
      rewrite lookup_insert_ne by discriminate. rewrite !lookup_insert_eq.
      split; [reflexivity|]. split; [reflexivity|]. split; [reflexivity|].
      split; [reflexivity|]. split.
      * intros k [d Hk]. rewrite !lookup_insert_ne; [reflexivity| |].
        -- intros <-. rewrite Ea in Hk. discriminate.
        -- intros <-. rewrite El in Hk. discriminate.
      * intros k Hk1 Hk2. now rewrite !lookup_insert_ne.
Qed.

(** X13: before [start], every function of the manager throws a [TypeError]
    and leaves the storage alone. *)
Theorem before_start (settings entry : Item) now count token id st :
  LocalStore.getSettings LocalStore.initial st = (Throw TypeError, st) /\
  (LocalStore.updateSettings settings LocalStore.initial st).1 = Throw TypeError /\
  (LocalStore.updateSettings settings LocalStore.initial st).2.2 = st /\
  LocalStore.listLog count token LocalStore.initial st = (Throw TypeError, st) /\
  (LocalStore.upsertLogEntry now entry LocalStore.initial st).1 = Throw TypeError /\
  (LocalStore.upsertLogEntry now entry LocalStore.initial st).2.2 = st /\
  LocalStore.getLogEntry id LocalStore.initial st = (Throw TypeError, st) /\
  LocalStore.removeLogEntry id LocalStore.initial st
    = (Throw TypeError, (LocalStore.initial, st)).
Proof. repeat split. Qed.

(** X14: the settings that are read are the stored ones laid over the
    defaults, and the defaults when nothing is stored. *)
Theorem settings_roundtrip defaults settings app log st :
  let s := LocalStore.mkState (Some app) (Some log) (Some defaults) in
  indexes app = [] ->
  truthy (settings !! "id"%string) = true ->
  ToString (settings !! "id"%string) = ToString (defaults !! "id"%string) ->
  (disk st !! itemKey (name app) (defaults !! "id"%string) = None ->
   (LocalStore.getSettings s st).1 = Return (LocalStore.PValue <$> defaults)) /\
  exists st',
    LocalStore.updateSettings settings s st = (Return tt, (s, settings, st')) /\
    (LocalStore.getSettings s st').1
      = Return (LocalStore.PValue <$> (settings ∪ defaults)).
Proof.
  intros s Hix Hid Hkey. split.
  - intros Hnone. unfold LocalStore.getSettings, getItem, AsyncStorage_getItem.
    simpl. rewrite Hnone. reflexivity.
  - unfold LocalStore.updateSettings, setItem, updateTableIndexes. simpl.
    rewrite Hid, Hix. simpl.
    eexists. split.
    + unfold s, setIndexes. destruct app as [n next ixs]. simpl in *. subst ixs.
      reflexivity.
    + unfold LocalStore.getSettings, getItem, AsyncStorage_getItem. simpl.
      unfold itemKey. rewrite <- Hkey, lookup_insert_eq. simpl.
      f_equal. symmetry. apply map_fmap_union.
Qed.

Lemma setItem_item table item st :
  (setItem table item st).2.1.2
  = if negb (truthy (item !! "id"%string))
    then <["id"%string := JNum (nextId table)]> item else item.
Proof.
  pose proof (setItem_effect table item st) as H.
  destruct (setItem table item st) as [r [[table' item'] st']].
  simpl in *. tauto.
Qed.

(** X15: [upsertLogEntry] stamps an entry that has no timestamp and leaves
    the other fields, the id apart, as they are. *)
Theorem upsert_timestamp now entry s st :
  let entry' := (LocalStore.upsertLogEntry now entry s st).2.1.2 in
  entry' !! "timestamp"%string
    = match entry !! "timestamp"%string with
      | None | Some JNull => Some (JNum now)
      | Some v => Some v
      end /\
  forall f, f <> "timestamp"%string -> f <> "id"%string ->
            entry' !! f = entry !! f.
Proof.
  unfold LocalStore.upsertLogEntry.
  set (stamped := if looseEq _ _ then _ else _).
  assert (Hs : stamped !! "timestamp"%string
               = match entry !! "timestamp"%string with
                 | None | Some JNull => Some (JNum now)
                 | Some v => Some v
                 end /\
               forall f, f <> "timestamp"%string -> stamped !! f = entry !! f).
  { subst stamped. destruct (entry !! "timestamp"%string) as [[]|] eqn:E; simpl;
      rewrite ?lookup_insert_eq; split; try reflexivity; try exact E;
      intros f Hf; now rewrite lookup_insert_ne. }
  destruct Hs as [Hts Hother].
  destruct (LocalStore._locationLog s) as [table|]; simpl.
  - pose proof (setItem_item table stamped st) as Hitem.
    destruct (setItem table stamped st) as [r [[table' item'] st']].
    simpl in *. subst item'.
    destruct (negb _); split; rewrite ?lookup_insert_ne by discriminate; auto.
    + intros f Hf1 Hf2. rewrite lookup_insert_ne by congruence. auto.
  - split; auto.
Qed.

(** X16: a log whose timestamps are not strings holds one entry: the second
    new entry throws and is not stored, and the handle lists it all the
    same. *)
Theorem log_holds_one_entry now1 now2 entry1 entry2 app defaults st :
  let s := LocalStore.mkState app
             (Some (mkTable "location-log" 1 logIndex)) defaults in
  truthy (entry1 !! "id"%string) = false ->
  truthy (entry2 !! "id"%string) = false ->
  (forall t, entry1 !! "timestamp"%string <> Some (JStr t)) ->
  (forall t, entry2 !! "timestamp"%string <> Some (JStr t)) ->
  disk st !! "location-log|2"%string = None ->
  exists s1 entry1' st1 s2 entry2',
    LocalStore.upsertLogEntry now1 entry1 s st = (Return tt, (s1, entry1', st1)) /\
    LocalStore.upsertLogEntry now2 entry2 s1 st1
      = (Throw TypeError, (s2, entry2', st1)) /\
    entry1' !! "id"%string = Some (JNum 1) /\
    entry2' !! "id"%string = Some (JNum 2) /\
    disk st1 !! "location-log|1"%string = Some (DItem entry1') /\
    disk st1 !! "location-log|2"%string = None /\
    (LocalStore.listLog None None s2 st1).1
      = Return (mkResults [Some (DItem entry1'); None] None).
Proof.
  intros s Hid1 Hid2 Hts1 Hts2 Hfree.
  unfold LocalStore.upsertLogEntry.
  set (stamped1 := if looseEq (entry1 !! _) _ then _ else _).
  set (stamped2 := if looseEq (entry2 !! _) _ then _ else _).
  assert (H1 : stamped1 !! "id"%string = entry1 !! "id"%string /\
               forall t, stamped1 !! "timestamp"%string <> Some (JStr t)).
  { subst stamped1. destruct (looseEq (entry1 !! "timestamp"%string) None).
    - split; [now rewrite lookup_insert_ne|].
      intros t. rewrite lookup_insert_eq. discriminate.
    - auto. }
  assert (H2 : stamped2 !! "id"%string = entry2 !! "id"%string /\
               forall t, stamped2 !! "timestamp"%string <> Some (JStr t)).
  { subst stamped2. destruct (looseEq (entry2 !! "timestamp"%string) None).
    - split; [now rewrite lookup_insert_ne|].
      intros t. rewrite lookup_insert_eq. discriminate.
    - auto. }
  clearbody stamped1 stamped2. destruct H1 as [Hi1 Ht1], H2 as [Hi2 Ht2].
  rewrite <- Hi1 in Hid1. rewrite <- Hi2 in Hid2.
  unfold s. simpl. unfold setItem, updateTableIndexes, logIndex. simpl.
  rewrite Hid1. simpl. unfold updateIndex. simpl.
  rewrite lookup_insert_eq. rewrite lookup_insert_ne by discriminate.
  simpl.
  eexists _, _, _, _, _. split; [reflexivity|].
  simpl. unfold setItem, updateTableIndexes. simpl.
  rewrite Hid2. simpl. unfold updateIndex. simpl.
  rewrite lookup_insert_eq. rewrite lookup_insert_ne by discriminate.
  simpl.
  assert (Hc : String_localeCompare (stamped2 !! "timestamp"%string)
                 (stamped1 !! "timestamp"%string) = Throw TypeError).
  { unfold String_localeCompare.
    destruct (stamped2 !! "timestamp"%string) as [[]|] eqn:E; try reflexivity.
    now destruct (Ht2 s0). }
  unfold comparefn. simpl. rewrite Hc. simpl.
  split; [reflexivity|].
  split; [apply lookup_insert_eq|]. split; [apply lookup_insert_eq|].
  split.
  { rewrite lookup_insert_ne by discriminate. apply lookup_insert_eq. }
  split.
  { rewrite !lookup_insert_ne by discriminate. exact Hfree. }
  unfold LocalStore.listLog, listItems. simpl.
  unfold AsyncStorage_multiGet. simpl.
  change (itemKey "location-log" (Some (JNum 1))) with "location-log|1"%string.
  change (itemKey "location-log" (Some (JNum (1 + 1))))
    with "location-log|2"%string.
  rewrite (lookup_insert_ne _ "location-log"%string "location-log|1"%string)
    by discriminate.
  rewrite lookup_insert_eq.
  rewrite !lookup_insert_ne by discriminate. rewrite Hfree. reflexivity.
Qed.

(** X17: an entry that was saved is read back by its id, as a number or as a
    string, and is gone from the storage and from the index once removed. *)
Theorem log_entry_roundtrip now entry app defaults st :
  let s := LocalStore.mkState app
             (Some (mkTable "location-log" 1 logIndex)) defaults in
  truthy (entry !! "id"%string) = false ->
  exists s1 entry' st1 s2 st2,
    LocalStore.upsertLogEntry now entry s st = (Return tt, (s1, entry', st1)) /\
    (LocalStore.getLogEntry (Some (JStr "1")) s1 st1).1
      = Return (Some (DItem entry')) /\
    (LocalStore.getLogEntry (Some (JNum 1)) s1 st1).1
      = Return (Some (DItem entry')) /\
    LocalStore.removeLogEntry (Some (JStr "1")) s1 st1 = (Return tt, (s2, st2)) /\
    (LocalStore.getLogEntry (Some (JStr "1")) s2 st2).1 = Return None /\
    (LocalStore.listLog None None s2 st2).1 = Return (mkResults [] None) /\
    disk st2 !! "location-log"%string
      = Some (DTable (mkTable "location-log" 2
                        [("timestamp"%string,
                          mkIndex (Some false) None (Some []))])).
Proof.
  intros s Hid. unfold LocalStore.upsertLogEntry.
  set (stamped := if looseEq (entry !! _) _ then _ else _).
  assert (H1 : stamped !! "id"%string = entry !! "id"%string).
  { subst stamped. destruct (looseEq (entry !! "timestamp"%string) None);
      [now rewrite lookup_insert_ne|reflexivity]. }
  clearbody stamped. rewrite <- H1 in Hid.
  unfold s. simpl. unfold setItem, updateTableIndexes, logIndex. simpl.
  rewrite Hid. simpl. unfold updateIndex. simpl.
  rewrite lookup_insert_eq. rewrite lookup_insert_ne by discriminate.
  simpl.
  eexists _, _, _, _, _. split; [reflexivity|].
  unfold LocalStore.getLogEntry, getItem, AsyncStorage_getItem. simpl.
  change (itemKey "location-log" (Some (JNum 1))) with "location-log|1"%string.
  change (itemKey "location-log" (Some (JStr "1"))) with "location-log|1"%string.
  rewrite (lookup_insert_ne _ "location-log"%string "location-log|1"%string)
    by discriminate.
  rewrite lookup_insert_eq.
  split; [reflexivity|]. split; [reflexivity|].
  unfold LocalStore.removeLogEntry, removeItem. simpl.
  change (itemKey "location-log" (Some (JStr "1"))) with "location-log|1"%string.
  split; [reflexivity|]. simpl.
  rewrite lookup_delete_eq. split; [reflexivity|].
  split; [reflexivity|].
  rewrite lookup_delete_ne by discriminate. rewrite lookup_insert_eq.
  reflexivity.
Qed.
End LocalStore_facts.

(** ** The earlier revision *)

Lemma earlier_updateIndex {collation : Collation} index item1 item2 :
  item1 !! "id"%string = item2 !! "id"%string ->
  item1 !! "field"%string = item2 !! "field"%string ->
  Earlier.updateIndex index item1 = Earlier.updateIndex index item2.
Proof. intros Hid Hf. unfold Earlier.updateIndex. now rewrite Hid, Hf. Qed.

(** X18: the earlier revision orders every index by the property named
    [field]: what it does to the indexes depends on the id and on that
    property of the item only. *)
Theorem earlier_reads_field {collation : Collation} table item1 item2 :
  item1 !! "id"%string = item2 !! "id"%string ->
  item1 !! "field"%string = item2 !! "field"%string ->
  Earlier.updateTableIndexes table item1 = Earlier.updateTableIndexes table item2.
Proof.
  intros Hid Hf. unfold Earlier.updateTableIndexes.
  assert (H : forall ixs m, Earlier.updateIndexes ixs item1 m
                            = Earlier.updateIndexes ixs item2 m).
  { induction ixs as [|[field index] ixs IH]; intros m; simpl; [reflexivity|].
    rewrite (earlier_updateIndex index item1 item2 Hid Hf).
    destruct (Earlier.updateIndex index item2) as [[c|e] index']; [|reflexivity].
    now rewrite IH. }
  now rewrite H.
Qed.

Lemma modifyExisting_new vs id value :
  Forall (fun e => looseEq (key_id e) id = false) vs ->
  modifyExisting vs id value = (vs, true, false).
Proof.
  induction 1 as [|e vs He _ IH]; simpl; [reflexivity|].
  now rewrite He, IH.
Qed.

(** X19: in the earlier revision a numerical index does not order the items
    by its field: an item with a new id that holds no number under [field]
    enters the index with the value 0, whatever its other fields hold, and
    the index is put in the order of the values. *)
Theorem earlier_numerical_order {collation : Collation} index item :
  numerical index = Some true ->
  Forall (fun e => valueFits true (key_value e) = true) (entries index) ->
  isNumber (item !! "field"%string) = false ->
  Forall (fun e => looseEq (key_id e) (item !! "id"%string) = false)
         (entries index) ->
  exists vs,
    Earlier.updateIndex index item = (Return true, setValues index vs) /\
    Permutation (entries index ++ [mkKey (item !! "id"%string) (Some (JNum 0))])
      vs /\
    StronglySorted (inOrder true (boolOf (ascending index))) vs.
Proof.
  intros Hnum Hfit Hfield Hnew. unfold Earlier.updateIndex.
  rewrite Hnum, Hfield. simpl.
  assert (Hm : match values index with
               | Some vs => modifyExisting vs (item !! "id"%string) (Some (JNum 0))
               | None => ([], true, false)
               end = (entries index, true, false)).
  { unfold entries in *. destruct (values index) as [vs|]; simpl in *;
      [now apply modifyExisting_new|reflexivity]. }
  rewrite Hm.
  destruct (sort_index true (boolOf (ascending index))
              (entries index ++ [mkKey (item !! "id"%string) (Some (JNum 0))]))
    as (r & -> & Hperm & Hsorted).
  { apply Forall_app. split; [exact Hfit|]. repeat constructor. }
  exists r. auto.
Qed.

(** ** The validation routine *)

Section Validation_facts.
Context {collation : Collation}.
Context (JSON_stringify : list LocalIndexKey -> string).

Lemma assertEach_spec msg vs expected w :
  length vs = length expected ->
  if bool_decide (map key_value vs = expected)
  then assertEach msg vs expected w = Some (Return tt, w)
  else assertEach msg vs expected w = failed msg w.
Proof.
  revert expected. induction vs as [|e vs IH]; intros [|v expected] Hlen;
    try discriminate; simpl.
  - reflexivity.
  - injection Hlen as Hlen. specialize (IH expected Hlen).
    unfold mbind, Test_bind, assert, strictEq.
    destruct (bool_decide (key_value e = v)) eqn:Ev.
    + apply bool_decide_eq_true in Ev. subst v.
      destruct (bool_decide (map key_value vs = expected)) eqn:Er.
      * apply bool_decide_eq_true in Er. subst expected.
        rewrite bool_decide_eq_true_2 by reflexivity. exact IH.
      * apply bool_decide_eq_false in Er.
        rewrite bool_decide_eq_false_2 by congruence. exact IH.
    + apply bool_decide_eq_false in Ev.
      rewrite bool_decide_eq_false_2 by congruence. reflexivity.
Qed.

(** X20: [assertIndexOrder] returns exactly when the index exists, is
    initialised and holds the expected values in order; otherwise it shows
    one alert and throws the failure with the same message. *)
Theorem assertIndexOrder_spec table indexName expected w :
  let ordered :=
    exists index vs,
      getIndex (indexes table) indexName = Some index /\
      values index = Some vs /\ map key_value vs = expected in
  (assertIndexOrder JSON_stringify table indexName expected w
     = Some (Return tt, w) <-> ordered) /\
  (~ ordered ->
   exists msg,
     assertIndexOrder JSON_stringify table indexName expected w = failed msg w).
Proof.
  intros ordered. unfold assertIndexOrder.
  destruct (getIndex (indexes table) indexName) as [index|] eqn:Ei.
  2: { rewrite bool_decide_eq_false_2 by (intros [? [=]]).
       unfold mbind, Test_bind, assert. cbn [orb negb].
       destruct (inheritedName indexName); cbn [negb]; split.
       - split; [discriminate|]. unfold ordered. intros (? & ? & [=] & _).
       - intros _. eexists. reflexivity.
       - split; [discriminate|]. unfold ordered. intros (? & ? & [=] & _).
       - intros _. eexists. reflexivity. }
  rewrite (bool_decide_eq_true_2 (is_Some (Some index))) by (eexists; reflexivity).
  cbn [orb].
  destruct (values index) as [vs|] eqn:Ev.
  2: { rewrite bool_decide_eq_false_2 by (intros [? [=]]).
       unfold mbind, Test_bind, assert. split.
       - split; [discriminate|].
         unfold ordered. intros (? & ? & [= <-] & Hv & _).
         rewrite Hv in Ev. discriminate.
       - intros _. eexists. reflexivity. }
  rewrite (bool_decide_eq_true_2 (is_Some (Some vs))) by (eexists; reflexivity).
  unfold mbind, Test_bind, assert.
  destruct (Z.of_nat (length vs) =? Z.of_nat (length expected)) eqn:El.
  2: { split.
       - split; [discriminate|].
         unfold ordered. intros (? & ? & [= <-] & Hv & Hm). rewrite Hv in Ev.
         injection Ev as <-. subst expected. rewrite length_map in El. lia.
       - intros _. eexists. reflexivity. }
  assert (Hlen : length vs = length expected) by lia.
  pose proof (assertEach_spec
                ("'" +:+ indexName +:+ "' out of order: " +:+ JSON_stringify vs)
                vs expected w Hlen) as He.
  destruct (bool_decide (map key_value vs = expected)) eqn:Em.
  - apply bool_decide_eq_true in Em. split.
    + split; [intros _; exists index, vs; auto | intros _; exact He].
    + intros Hn. destruct Hn. exists index, vs. auto.
  - apply bool_decide_eq_false in Em. split.
    + split.
      * rewrite He. discriminate.
      * unfold ordered. intros (? & ? & [= <-] & Hv & Hm). rewrite Hv in Ev.
        injection Ev as <-. contradiction.
    + intros _. eexists. exact He.
Qed.

Lemma deleteTable_lookup tableName st k :
  disk (deleteTable tableName st).2 !! k
  = if isTableKey tableName k then None else disk st !! k.
Proof.
  unfold deleteTable, AsyncStorage_getAllKeys, AsyncStorage_multiRemove.
  set (tableKeys := filter _ _).
  assert (Hl : fold_left (fun m k => delete k m) tableKeys (disk st) !! k
               = if isTableKey tableName k then None else disk st !! k).
  { rewrite lookup_multiRemove. unfold tableKeys.
    destruct (decide (k ∈ _)) as [Hin|Hnin].
    - apply list_elem_of_filter in Hin as [-> _]. reflexivity.
    - destruct (isTableKey tableName k) eqn:Ek; [|reflexivity].
      destruct (disk st !! k) as [d|] eqn:Ed; [|reflexivity].
      exfalso. apply Hnin. apply list_elem_of_filter. split; [exact Ek|].
      apply list_elem_of_In, in_map_iff. exists (k, d). split; [reflexivity|].
      apply list_elem_of_In, elem_of_map_to_list. exact Ed. }
  destruct tableKeys; simpl in *; exact Hl.
Qed.

Lemma call_deleteTable tableName a st :
  call (deleteTable tableName) (a, st)
  = Some (Return tt, (a, (deleteTable tableName st).2)).
Proof.
  unfold call, deleteTable. simpl.
  destruct (0 <? _); reflexivity.
Qed.

Lemma setItem_plain table item st :
  indexes table = [] ->
  setItem table item st
  = if negb (truthy (item !! "id"%string))
    then
      let table' := mkTable (name table) (nextId table + 1) [] in
      let item' := <["id"%string := JNum (nextId table)]> item in
      (Return tt,
       (table', item',
        AsyncStorage_multiSet
          [(itemKey (name table) (Some (JNum (nextId table))), DItem item');
           (name table, DTable table')] st))
    else
      (Return tt,
       (mkTable (name table) (nextId table) [], item,
        AsyncStorage_multiSet
          [(itemKey (name table) (item !! "id"%string), DItem item)] st)).
Proof.
  intros Hix. unfold setItem, updateTableIndexes.
  destruct (negb (truthy (item !! "id"%string))); simpl; rewrite Hix; simpl.
  - rewrite lookup_insert_eq. reflexivity.
  - reflexivity.
Qed.

Lemma looseEq_autoId i :
  looseEq (Some (JNum i)) (Some (JStr (Number_toString i))) = true.
Proof.
  simpl. rewrite StringToNumber_Number_toString. simpl. lia.
Qed.

Lemma autoIncrement_passes turns : forall i table item a st,
  name table = "test"%string -> indexes table = [] -> nextId table = i ->
  exists table' item' st',
    autoIncrement turns i table item (a, st)
      = Some (Return (table', item'), (a, st')) /\
    forall k, isTableKey "test" k = false -> disk st' !! k = disk st !! k.
Proof.
  induction turns as [|turns IH]; intros i table item a st Hname Hix Hnext.
  - exists table, item, st. split; [reflexivity|auto].
  - cbn [autoIncrement]. unfold mbind at 1, Test_bind at 1.
    unfold callSetItem. cbn [snd fst].
    rewrite (setItem_plain table (delete "id"%string item) st Hix).
    rewrite lookup_delete_eq. cbn [truthy negb]. cbv zeta.
    unfold mbind at 1, Test_bind at 1. unfold assert at 1.
    rewrite lookup_insert_eq, Hnext, looseEq_autoId.
    set (table' := mkTable _ _ _). set (item' := <[_ := _]> _).
    set (st1 := AsyncStorage_multiSet _ _).
    destruct (IH (i + 1) table' item' a st1) as (t2 & i2 & st2 & Hrun & Hframe);
      [exact Hname|reflexivity|reflexivity|].
    exists t2, i2, st2. split; [exact Hrun|].
    intros k Hk. rewrite (Hframe k Hk). unfold st1. simpl. rewrite Hname.
    rewrite !lookup_insert_ne; [reflexivity| |].
    + intros <-. rewrite <- Hname in Hk.
      assert (isTableKey (name table) (itemKey (name table) (Some (JNum i))) = true)
        by (apply isTableKey_spec; right; eexists; reflexivity).
      congruence.
    + intros <-. discriminate Hk.
Qed.

Lemma bind_return {A B : Type} (m : Test A) (f : A -> Test B) w a w' :
  m w = Some (Return a, w') -> (m ≫= f) w = f a w'.
Proof. intros H. unfold mbind, Test_bind. now rewrite H. Qed.

Lemma withoutIndexes_passes a st :
  (forall k, isTableKey "test" k = true -> disk st !! k = None) ->
  exists st',
    withoutIndexes (a, st) = Some (Return tt, (a, st')) /\
    forall k, isTableKey "test" k = false -> disk st' !! k = disk st !! k.
Proof.
  intros H0. unfold withoutIndexes.
  set (foo := ({[ "id"%string := JStr "foo"; "value"%string := JStr "bar" ]} : Item)).
  assert (Hfoo : foo !! "id"%string = Some (JStr "foo")) by reflexivity.
  erewrite bind_return.
  2: { unfold call, defineTable, AsyncStorage_getItem, AsyncStorage_setItem.
       cbn [fst snd disk calls]. rewrite (H0 "test"%string) by reflexivity.
       reflexivity. }
  erewrite bind_return.
  2: { unfold call, openTable, AsyncStorage_getItem.
       cbn [fst snd disk calls]. rewrite lookup_insert_eq. reflexivity. }
  erewrite bind_return by reflexivity.
  erewrite bind_return by reflexivity.
  erewrite bind_return.
  2: { unfold call, getItem, AsyncStorage_getItem. cbn [fst snd disk calls name].
       change (itemKey "test" (Some (JStr "foo"))) with "test|foo"%string.
       rewrite lookup_insert_ne by discriminate.
       rewrite (H0 "test|foo"%string) by reflexivity. reflexivity. }
  erewrite bind_return by reflexivity.
  erewrite bind_return.
  2: { unfold callSetItem. rewrite setItem_plain by reflexivity.
       rewrite Hfoo. cbn [truthy negb String.eqb Ascii.eqb Bool.eqb fst snd name nextId].
       reflexivity. }
  cbv beta iota.
  erewrite bind_return by (rewrite Hfoo; reflexivity).
  erewrite bind_return.
  2: { unfold call, getItem, AsyncStorage_getItem, AsyncStorage_multiSet.
       cbn [fst snd disk calls name fold_left].
       change (itemKey "test" (Some (JStr "foo"))) with "test|foo"%string.
       rewrite lookup_insert_eq. reflexivity. }
  erewrite bind_return by reflexivity.
  erewrite bind_return.
  2: { unfold callRemoveItem, removeItem. cbn. reflexivity. }
  erewrite bind_return.
  2: { unfold call, getItem, AsyncStorage_getItem.
       cbn [fst snd disk calls name setIndexes AsyncStorage_removeItem].
       rewrite lookup_delete_eq. reflexivity. }
  erewrite bind_return by reflexivity.
  match goal with
  | |- context [mbind _ (autoIncrement 9 1 ?t ?i) (?a0, ?s0)] =>
      destruct (autoIncrement_passes 9 1 t i a0 s0)
        as (t2 & i2 & st2 & Hrun & Hframe); [reflexivity ..|]
  end.
  erewrite bind_return by exact Hrun.
  exists st2. split; [reflexivity|].
  intros k Hk. rewrite (Hframe k Hk).
  cbn [disk AsyncStorage_removeItem AsyncStorage_multiSet fold_left fst snd
       setIndexes name].
  change (itemKey "test" (Some (JStr "foo"))) with "test|foo"%string.
  rewrite lookup_delete_ne by (intros <-; discriminate Hk).
  rewrite !lookup_insert_ne by (intros <-; discriminate Hk).
  reflexivity.
Qed.

Lemma assertIndexOrder_passes table indexName expected index vs w :
  getIndex (indexes table) indexName = Some index ->
  values index = Some vs ->
  map key_value vs = expected ->
  assertIndexOrder JSON_stringify table indexName expected w = Some (Return tt, w).
Proof.
  intros Hi Hv Hm. unfold assertIndexOrder. rewrite Hi.
  erewrite bind_return by reflexivity. rewrite Hv.
  erewrite bind_return by reflexivity.
  assert (Hlen : length vs = length expected) by (subst expected; now rewrite length_map).
  erewrite bind_return.
  2: { rewrite Hlen, Z.eqb_refl. reflexivity. }
  pose proof (assertEach_spec
                ("'" +:+ indexName +:+ "' out of order: " +:+ JSON_stringify vs)
                vs expected w Hlen) as He.
  now rewrite bool_decide_eq_true_2 in He by exact Hm.
Qed.

Lemma setItem_auto table item st m table' :
  truthy (item !! "id"%string) = false ->
  updateTableIndexes
    (mkTable (name table) (nextId table + 1) (indexes table))
    (<["id"%string := JNum (nextId table)]> item) = (Return m, table') ->
  setItem table item st
  = (Return tt,
     (table', <["id"%string := JNum (nextId table)]> item,
      AsyncStorage_multiSet
        [(itemKey (name table') (Some (JNum (nextId table))),
          DItem (<["id"%string := JNum (nextId table)]> item));
         (name table', DTable table')] st)).
Proof.
  intros Hid Hu. unfold setItem. rewrite Hid. cbn [negb]. rewrite Hu.
  rewrite lookup_insert_eq. reflexivity.
Qed.
End Validation_facts.

Lemma withIndexes_passes JSON_stringify a st :
  (forall k, isTableKey "test" k = true -> disk st !! k = None) ->
  exists st',
    withIndexes (collation := ordinal_collation) JSON_stringify (a, st)
      = Some (Return tt, (a, st')) /\
    forall k, isTableKey "test" k = false -> disk st' !! k = disk st !! k.
Proof.
  intros H0. unfold withIndexes.
  erewrite bind_return.
  2: { unfold call, defineTable, AsyncStorage_getItem, AsyncStorage_setItem.
       cbn [fst snd disk calls]. rewrite (H0 "test"%string) by reflexivity.
       reflexivity. }
  erewrite bind_return.
  2: { unfold call, openTable, AsyncStorage_getItem.
       cbn [fst snd disk calls]. rewrite lookup_insert_eq. reflexivity. }
  erewrite bind_return by reflexivity.
  erewrite bind_return by reflexivity.
  erewrite bind_return by reflexivity.
  cbn [default].
  erewrite bind_return.
  2: { unfold callSetItem. cbn [fst snd].
       erewrite setItem_auto; [reflexivity|reflexivity|vm_compute; reflexivity]. }
  cbv beta iota.
  erewrite bind_return.
  2: { unfold callSetItem. cbn [fst snd].
       erewrite setItem_auto; [reflexivity|reflexivity|vm_compute; reflexivity]. }
  cbv beta iota.
  erewrite bind_return.
  2: { unfold callSetItem. cbn [fst snd].
       erewrite setItem_auto; [reflexivity|reflexivity|vm_compute; reflexivity]. }
  cbv beta iota.
  match goal with
  | |- context [assertIndexOrder _ ?t "name"] => set (table3 := t)
  end.
  erewrite bind_return
    by (eapply assertIndexOrder_passes; vm_compute; reflexivity).
  erewrite bind_return
    by (eapply assertIndexOrder_passes; vm_compute; reflexivity).
  erewrite bind_return
    by (eapply assertIndexOrder_passes; vm_compute; reflexivity).
  erewrite bind_return
    by (eapply assertIndexOrder_passes; vm_compute; reflexivity).
  match goal with
  | |- context [(a, ?s)] => set (st3 := s)
  end.
  assert (H1 : disk st3 !! "test|1"%string
               = Some (DItem (<["id"%string := JNum 1]> (person "steve" 51 2 "dad")))).
  { unfold st3, AsyncStorage_multiSet. cbn [fold_left disk fst snd name nextId].
    change (itemKey "test" (Some (JNum 1))) with "test|1"%string.
    change (itemKey "test" (Some (JNum 2))) with "test|2"%string.
    change (itemKey "test" (Some (JNum 3))) with "test|3"%string.
    rewrite !(lookup_insert_ne _ "test"%string "test|1"%string) by discriminate.
    rewrite !(lookup_insert_ne _ "test|3"%string "test|1"%string) by discriminate.
    rewrite !(lookup_insert_ne _ "test"%string "test|1"%string) by discriminate.
    rewrite !(lookup_insert_ne _ "test|2"%string "test|1"%string) by discriminate.
    rewrite !(lookup_insert_ne _ "test"%string "test|1"%string) by discriminate.
    apply lookup_insert_eq. }
  assert (H2 : disk st3 !! "test|2"%string
               = Some (DItem (<["id"%string := JNum 2]>
                                (person "annabelle" 4 0 "daughter")))).
  { unfold st3, AsyncStorage_multiSet. cbn [fold_left disk fst snd name nextId].
    change (itemKey "test" (Some (JNum 1))) with "test|1"%string.
    change (itemKey "test" (Some (JNum 2))) with "test|2"%string.
    change (itemKey "test" (Some (JNum 3))) with "test|3"%string.
    rewrite !(lookup_insert_ne _ "test"%string "test|2"%string) by discriminate.
    rewrite !(lookup_insert_ne _ "test|3"%string "test|2"%string) by discriminate.
    rewrite !(lookup_insert_ne _ "test"%string "test|2"%string) by discriminate.
    apply lookup_insert_eq. }
  assert (H3 : disk st3 !! "test|3"%string
               = Some (DItem (<["id"%string := JNum 3]> (person "donna" 48 1 "wife")))).
  { unfold st3, AsyncStorage_multiSet. cbn [fold_left disk fst snd name nextId].
    change (itemKey "test" (Some (JNum 1))) with "test|1"%string.
    change (itemKey "test" (Some (JNum 2))) with "test|2"%string.
    change (itemKey "test" (Some (JNum 3))) with "test|3"%string.
    rewrite !(lookup_insert_ne _ "test"%string "test|3"%string) by discriminate.
    apply lookup_insert_eq. }
  assert (Hf : forall k, isTableKey "test" k = false -> disk st3 !! k = disk st !! k).
  { intros k Hk.
    unfold st3, AsyncStorage_multiSet. cbn [fold_left disk fst snd name nextId].
    change (itemKey "test" (Some (JNum 1))) with "test|1"%string.
    change (itemKey "test" (Some (JNum 2))) with "test|2"%string.
    change (itemKey "test" (Some (JNum 3))) with "test|3"%string.
    rewrite !lookup_insert_ne by (intros <-; discriminate Hk). reflexivity. }
  clearbody st3.
  erewrite bind_return.
  2: { unfold call. cbn [fst snd]. unfold listItems, table3.
       cbn [indexes name getIndex String.eqb Ascii.eqb Bool.eqb values default
            startIndexOf length].
       match goal with
       | |- context [collectKeys ?n ?vs ?i ?c ?k] =>
           let r := eval vm_compute in (collectKeys n vs i c k) in
           change (collectKeys n vs i c k) with r
       end.
       change (0 <? Z.of_nat 3) with true. cbv beta iota.
       change (3 <? Z.of_nat 3) with false. cbv beta iota.
       cbn [AsyncStorage_multiGet map fst snd]. rewrite H1, H2, H3.
       reflexivity. }
  erewrite bind_return by reflexivity.
  erewrite bind_return by reflexivity.
  erewrite bind_return by reflexivity.
  erewrite bind_return by reflexivity.
  erewrite bind_return by reflexivity.
  erewrite bind_return.
  2: { unfold call. cbn [fst snd disk calls]. unfold listItems, table3.
       cbn [indexes name getIndex String.eqb Ascii.eqb Bool.eqb values default
            startIndexOf length].
       match goal with
       | |- context [collectKeys ?n ?vs ?i ?c ?k] =>
           let r := eval vm_compute in (collectKeys n vs i c k) in
           change (collectKeys n vs i c k) with r
       end.
       change (0 <? Z.of_nat 3) with true. cbv beta iota.
       change (2 <? Z.of_nat 3) with true. cbv beta iota.
       cbn [AsyncStorage_multiGet map fst snd disk calls]. rewrite H2, H3.
       reflexivity. }
  erewrite bind_return by reflexivity.
  erewrite bind_return by reflexivity.
  erewrite bind_return.
  2: { unfold call. cbn [fst snd disk calls continuation].
       unfold listItems, table3.
       cbn [indexes name getIndex String.eqb Ascii.eqb Bool.eqb values default
            length].
       change (startIndexOf (Some (Number_toString 2))) with (Some 2).
       cbv beta iota.
       match goal with
       | |- context [collectKeys ?n ?vs ?i ?c ?k] =>
           let r := eval vm_compute in (collectKeys n vs i c k) in
           change (collectKeys n vs i c k) with r
       end.
       change (2 <? Z.of_nat 3) with true. cbv beta iota.
       change (3 <? Z.of_nat 3) with false. cbv beta iota.
       cbn [AsyncStorage_multiGet map fst snd disk calls]. rewrite H1.
       reflexivity. }
  erewrite bind_return by reflexivity.
  erewrite bind_return by reflexivity.
  erewrite bind_return by reflexivity.
  erewrite bind_return by reflexivity.
  eexists. split; [reflexivity|]. exact Hf.
Qed.

(** X21: [runTest] passes on every storage, shows no alert, and leaves the
    storage as it was but for the table [test], which is gone with its
    items. *)
Theorem runTest_passes JSON_stringify a st :
  exists st',
    runTest (collation := ordinal_collation) JSON_stringify (a, st)
      = Some (Return tt, (a, st')) /\
    forall k, disk st' !! k
              = if isTableKey "test" k then None else disk st !! k.
Proof.
  unfold runTest.
  erewrite bind_return by apply call_deleteTable.
  destruct (withoutIndexes_passes (collation := ordinal_collation) a
              (deleteTable "test" st).2) as (st1 & Hrun1 & Hframe1).
  { intros k Hk. rewrite deleteTable_lookup, Hk. reflexivity. }
  erewrite bind_return by exact Hrun1.
  erewrite bind_return by apply call_deleteTable.
  destruct (withIndexes_passes JSON_stringify a (deleteTable "test" st1).2)
    as (st2 & Hrun2 & Hframe2).
  { intros k Hk. rewrite deleteTable_lookup, Hk. reflexivity. }
  erewrite bind_return by exact Hrun2.
  rewrite call_deleteTable. eexists. split; [reflexivity|].
  intros k. rewrite deleteTable_lookup.
  destruct (isTableKey "test" k) eqn:Hk; [reflexivity|].
  rewrite (Hframe2 k Hk), deleteTable_lookup, Hk, (Hframe1 k Hk),
    deleteTable_lookup, Hk.
  reflexivity.
Qed.

(** ** Instances of the properties *)

Lemma compareLocations_fields_witness :
  Location.compareLocations
    (Some (Location.mkInfo 120 5000
             (Some (partial_alter (fun _ => Some (JStr "98052"))
                      "postalCode"%string home))))
    (Some (Location.mkInfo 0 1000 (Some home)))
  = Location.compareLocations
      (Some (Location.mkInfo 0 1000 (Some home)))
      (Some (Location.mkInfo 0 1000 (Some home))).
Proof.
  apply (compareLocations_fields (Location.mkInfo 0 1000 (Some home))
           (Some (Location.mkInfo 0 1000 (Some home))) home 120 5000
           "postalCode" (Some (JStr "98052")));
    [reflexivity | discriminate ..].
Defined.

Lemma unsubscribed_never_called_witness :
  let steps :=
    [Location.SubscribeToChanges "ui"%string;
     Location.Task (Some [fixAt 0 1000]) None (Some [home])] in
  ~ In "store"%string (map snd (Location.changeSubscriptions tracking)) /\
  forall location,
    In (Location.Called "store"%string location)
       (Location.events (Location.run lineDistance 4 1 steps tracking)) ->
    In (Location.Called "store"%string location) (Location.events tracking).
Proof.
  assert (H : ~ In "store"%string (map snd (Location.changeSubscriptions tracking)))
    by (simpl; tauto).
  split; [exact H|].
  apply (unsubscribed_never_called lineDistance 4 1 _ tracking "store"%string H).
  repeat constructor; discriminate.
Defined.

Lemma findAddress_cached_witness :
  Location.findAddress lineDistance (fixAt 103 3000) None visited
  = (Return (Location.mkInfo 100 2000 (Some cafe)), visited) /\
  In (Location.mkInfo 100 2000 (Some cafe)) (Location.locationCache visited).
Proof.
  apply (findAddress_cached lineDistance visited (Location.withDefaults 4 None) 10
           (fixAt 103 3000) None [Location.mkInfo 0 1000 (Some home)]
           (Location.mkInfo 100 2000 (Some cafe)) []);
    [reflexivity | reflexivity | reflexivity | | ].
  - constructor; [vm_compute; reflexivity | constructor].
  - vm_compute. discriminate.
Defined.

Lemma cache_bounded_witness :
  Z.of_nat
    (length (Location.locationCache
               (Location.run lineDistance 4 1
                  [Location.Task (Some [fixAt 0 1000]) None (Some [home]);
                   Location.Task (Some [fixAt 100 2000]) None (Some [cafe])]
                  tracking))) <= 100.
Proof.
  apply (cache_bounded lineDistance 4 1 _ tracking (Location.withDefaults 4 None) 100);
    [reflexivity | reflexivity | simpl; lia | repeat constructor; discriminate].
Defined.

Lemma first_fix_witness :
  exists s',
    Location.TASK_HANDLER lineDistance (Some [fixAt 0 1000]) None (Some [home])
      watched = (Return tt, s') /\
    Location.currentLocation s' = Some (Location.mkInfo 0 1000 (Some home)) /\
    Location.changeSubscriptions s' = Location.changeSubscriptions watched /\
    Location.events s'
      = Location.events watched
        ++ Location.ReverseGeocodeAsync 0
           :: map (fun kc => Location.Called kc.2
                               (Location.mkInfo 0 1000 (Some home)))
                  (Location.changeSubscriptions watched).
Proof.
  apply (first_fix lineDistance watched (Location.withDefaults 4 None) 10
           (fixAt 0 1000) [] home []);
    [reflexivity | reflexivity | reflexivity | constructor].
Defined.

Lemma dwell_witness :
  let info := Location.mkInfo 100 2000 (Some cafe) in
  exists s',
    Location.TASK_HANDLER lineDistance (Some [fixAt 100 2000]) None (Some [cafe])
      atHome = (Return tt, s') /\
    Location.currentLocation s' = Some info /\
    Location.events s'
      = Location.events atHome
        ++ [Location.ReverseGeocodeAsync 100;
            Location.SetTimeout info (Some 60000)] /\
    Location.events (Location.dwellElapsed info s')
      = Location.events s'
        ++ [Location.Called "ui"%string info].
Proof.
  destruct (dwell lineDistance atHome (Location.withDefaults 4 None) 10
              (fixAt 100 2000) (Location.mkInfo 0 1000 (Some home)) [] cafe [])
    as (s' & H1 & H2 & H3 & H4 & _);
    [reflexivity | reflexivity | reflexivity
    | constructor; [vm_compute; reflexivity | constructor]
    | vm_compute; reflexivity |].
  exists s'. split; [exact H1|]. split; [exact H2|]. split; [exact H3|exact H4].
Defined.

Lemma addressless_cached_witness :
  exists s',
    Location.TASK_HANDLER lineDistance (Some [fixAt 0 1000]) None (Some [])
      tracking = (Return tt, s') /\
    Location.locationCache s' = [fixAt 0 1000] /\
    forall addresses2,
      Location.TASK_HANDLER lineDistance (Some [fixAt 3 2000]) None addresses2 s'
      = (Return tt, s').
Proof.
  destruct (addressless_cached lineDistance tracking (Location.withDefaults 4 None)
              10 100 (fixAt 0 1000) (fixAt 3 2000) (Some []))
    as (s' & H1 & H2 & _ & _ & H5);
    [reflexivity | reflexivity | reflexivity | simpl; lia | reflexivity
    | right; reflexivity | constructor | constructor
    | vm_compute; discriminate |].
  exists s'. split; [exact H1|]. split; [exact H2|]. intros a. apply H5.
Defined.

Lemma layout_kept_witness :
  itemsKeyed (disk (setItem witnessTable (person "steve" 51 2 "dad")
                      (mkStorage ∅ [])).2.2).
Proof.
  apply (layout_kept (collation := ordinal_collation) (mkStorage ∅ [])).
  intros k i H. simpl in H. rewrite lookup_empty in H. discriminate H.
Defined.

Lemma start_opens_witness :
  exists app log st',
    LocalStore.start "handleLocationChanged"%string defaultSettings
      LocalStore.initial tracking (mkStorage ∅ [])
      = Some (Return tt,
              (LocalStore.mkState (Some app) (Some log) (Some defaultSettings),
               (Location.subscribeToChanges "handleLocationChanged"%string
                  tracking).2, st')) /\
    app = mkTable "application" 1 [] /\
    log = mkTable "location-log" 1 logIndex /\
    disk st' !! "location-log"%string = Some (DTable log).
Proof.
  destruct (start_opens "handleLocationChanged"%string defaultSettings
              LocalStore.initial tracking (mkStorage ∅ []))
    as (app & log & st' & H1 & _ & H3 & H4 & H5 & _).
  - intros k i H. simpl in H. rewrite lookup_empty in H. discriminate H.
  - exists app, log, st'. split; [exact H1|]. split; [apply H4; reflexivity|].
    split; [apply H5; reflexivity|exact H3].
Defined.

Lemma settings_roundtrip_witness :
  let settings : Item :=
    {[ "id"%string := JStr "settings"; "trackingEnabled"%string := JBool true ]} in
  let s := LocalStore.mkState (Some (mkTable "application" 1 []))
             (Some (mkTable "location-log" 1 logIndex)) (Some defaultSettings) in
  exists st',
    LocalStore.updateSettings (collation := ordinal_collation) settings s
      (mkStorage ∅ []) = (Return tt, (s, settings, st')) /\
    (LocalStore.getSettings s st').1
      = Return (LocalStore.PValue <$> (settings ∪ defaultSettings)).
Proof.
  intros settings s.
  apply (settings_roundtrip (collation := ordinal_collation) defaultSettings
           settings (mkTable "application" 1 []) (mkTable "location-log" 1 logIndex)
           (mkStorage ∅ [])); reflexivity.
Defined.

Lemma log_holds_one_entry_witness :
  let s := LocalStore.mkState None (Some (mkTable "location-log" 1 logIndex)) None in
  exists s1 entry1' st1 s2 entry2',
    LocalStore.upsertLogEntry (collation := ordinal_collation) 1000
      (logEntry 900 "Home") s (mkStorage ∅ [])
      = (Return tt, (s1, entry1', st1)) /\
    LocalStore.upsertLogEntry (collation := ordinal_collation) 2000
      (logEntry 1900 "Cafe") s1 st1
      = (Throw TypeError, (s2, entry2', st1)) /\
    (LocalStore.listLog None None s2 st1).1
      = Return (mkResults [Some (DItem entry1'); None] None).
Proof.
  intros s.
  destruct (log_holds_one_entry (collation := ordinal_collation) 1000 2000
              (logEntry 900 "Home") (logEntry 1900 "Cafe") None None
              (mkStorage ∅ []))
    as (s1 & e1 & st1 & s2 & e2 & H1 & H2 & _ & _ & _ & _ & H7);
    [reflexivity | reflexivity
    | intros t H; vm_compute in H; discriminate H
    | intros t H; vm_compute in H; discriminate H
    | reflexivity |].
  exists s1, e1, st1, s2, e2. split; [exact H1|]. split; [exact H2|exact H7].
Defined.

Lemma log_entry_roundtrip_witness :
  let s := LocalStore.mkState None (Some (mkTable "location-log" 1 logIndex)) None in
  exists s1 entry' st1 s2 st2,
    LocalStore.upsertLogEntry (collation := ordinal_collation) 1000
      (logEntry 900 "Home") s (mkStorage ∅ [])
      = (Return tt, (s1, entry', st1)) /\
    (LocalStore.getLogEntry (Some (JStr "1")) s1 st1).1
      = Return (Some (DItem entry')) /\
    LocalStore.removeLogEntry (Some (JStr "1")) s1 st1 = (Return tt, (s2, st2)) /\
    (LocalStore.getLogEntry (Some (JStr "1")) s2 st2).1 = Return None.
Proof.
  intros s.
  destruct (log_entry_roundtrip (collation := ordinal_collation) 1000
              (logEntry 900 "Home") None None (mkStorage ∅ []))
    as (s1 & e1 & st1 & s2 & st2 & H1 & H2 & _ & H4 & H5 & _);
    [reflexivity|].
  exists s1, e1, st1, s2, st2. split; [exact H1|]. split; [exact H2|].
  split; [exact H4|exact H5].
Defined.

Lemma earlier_reads_field_witness :
  Earlier.updateTableIndexes (collation := ordinal_collation) witnessTable
    (person "steve" 51 2 "dad")
  = Earlier.updateTableIndexes witnessTable (person "donna" 48 1 "wife").
Proof.
  apply (earlier_reads_field (collation := ordinal_collation) witnessTable
           (person "steve" 51 2 "dad") (person "donna" 48 1 "wife"));
    reflexivity.
Defined.

Lemma earlier_numerical_order_witness :
  let index :=
    mkIndex (Some true) (Some true)
      (Some [mkKey (Some (JNum 1)) (Some (JNum 0));
             mkKey (Some (JNum 2)) (Some (JNum 7))]) in
  let item := <["id"%string := JNum 3]> (person "steve" 51 2 "dad") in
  exists vs,
    Earlier.updateIndex (collation := ordinal_collation) index item
      = (Return true, setValues index vs) /\
    key_value <$> vs = [Some (JNum 0); Some (JNum 0); Some (JNum 7)].
Proof.
  intros index item.
  destruct (earlier_numerical_order (collation := ordinal_collation) index item)
    as (vs & Heq & Hperm & Hsorted).
  - reflexivity.
  - repeat constructor.
  - reflexivity.
  - repeat constructor.
  - exists vs. split; [exact Heq|].
    vm_compute in Heq. injection Heq as <-. reflexivity.
Defined.

Lemma same_address_witness :
  exists s',
    Location.TASK_HANDLER lineDistance (Some [fixAt 40 2000]) None (Some [home])
      atHome = (Return tt, s') /\
    Location.currentLocation s' = Some (Location.mkInfo 0 1000 (Some home)) /\
    Location.events s'
      = Location.events atHome ++ [Location.ReverseGeocodeAsync 40].
Proof.
  destruct (same_address lineDistance atHome (Location.withDefaults 4 None) 10
              (fixAt 40 2000) (Location.mkInfo 0 1000 (Some home)) [] home [])
    as (s' & H1 & H2 & _ & H4);
    [reflexivity | reflexivity | reflexivity
    | constructor; [vm_compute; reflexivity | constructor]
    | vm_compute; reflexivity |].
  exists s'. split; [exact H1|]. split; [exact H2|exact H4].
Defined.
